(** * init_db.py: schema bootstrap for the notes application

    A shallow embedding of [database/init_db.py] together with the parts of
    its environment that the script talks to: Python text (code points),
    the [re] patterns it searches with, [posixpath], a small file system,
    and the SQLite statements it executes. *)

From Stdlib Require Import Ascii String DecimalString ZArith NArith Lia.
From stdpp Require Import strings gmap list.

Set Default Proof Using "Type".

(** ** Python text

    A Python [str] is a sequence of Unicode code points.  Text is assumed
    to be well formed (no lone surrogates), so encoding to UTF-8 never
    fails. *)

Abbreviation str := (list N).

Definition lit (s : string) : str :=
  N_of_ascii <$> list_ascii_of_string s.
Arguments lit s%_string : simpl never.

Module Str.

(** [str.isspace] on one code point; it is also the class [\s] of [re]
    for text patterns. *)
Definition isspace (c : N) : bool :=
  ((9 <=? c) && (c <=? 13) || (28 <=? c) && (c <=? 32)
   || (c =? 133) || (c =? 160) || (c =? 5760)
   || (8192 <=? c) && (c <=? 8202)
   || (c =? 8232) || (c =? 8233) || (c =? 8239) || (c =? 8287)
   || (c =? 12288))%N.

Fixpoint lstrip (s : str) : str :=
  match s with
  | c :: s' => if isspace c then lstrip s' else s
  | [] => []
  end.

Definition rstrip (s : str) : str := reverse (lstrip (reverse s)).

(** [s.strip()] *)
Definition strip (s : str) : str := rstrip (lstrip s).

(** Truth value of a string: [if candidate:] *)
Definition truthy (s : str) : bool :=
  match s with [] => false | _ => true end.

(** [s.startswith(p)] *)
Fixpoint startswith (p s : str) : bool :=
  match p, s with
  | [], _ => true
  | a :: p', b :: s' => (a =? b)%N && startswith p' s'
  | _ :: _, [] => false
  end.

(** Text mode with [newline=None]: on input, "\r\n" and "\r" become
    "\n".  On output nothing changes on a POSIX host. *)
Fixpoint universal_newlines (s : str) : str :=
  match s with
  | [] => []
  | c :: s' =>
      if (c =? 13)%N then
        10%N :: match s' with
                | d :: s'' =>
                    if (d =? 10)%N then universal_newlines s''
                    else universal_newlines s'
                | [] => []
                end
      else c :: universal_newlines s'
  end.

(** ASCII lower-casing, as SQLite compares identifiers. *)
Definition lower_char (c : N) : N :=
  if ((65 <=? c) && (c <=? 90))%N then (c + 32)%N else c.
Definition lower (s : str) : str := lower_char <$> s.

End Str.

(** ** The fragment of [re] used by the script

    Patterns are sequences of items; the only repetitions are greedy
    repetitions of a one-character class, and there is one capturing
    group.  Matching is leftmost with backtracking, as in [re.search]
    with [re.MULTILINE]. *)

Module Re.

Inductive atom :=
| AChar (c : N)     (* a literal character *)
| ASpace            (* \s *)
| AAny.             (* .  (no DOTALL: anything but a newline) *)

Definition atom_match (a : atom) (c : N) : bool :=
  match a with
  | AChar x => (x =? c)%N
  | ASpace => Str.isspace c
  | AAny => negb (c =? 10)%N
  end.

Inductive item :=
| One (a : atom)          (* a *)
| Star (a : atom)         (* a*   greedy *)
| GroupPlus (a : atom)    (* (a+) greedy, group 1 *)
| Bol                     (* ^ with MULTILINE *)
| Eol.                    (* $ with MULTILINE *)

Abbreviation regex := (list item).

(** Continuations receive the character just before the position and
    the remaining text. *)

Fixpoint star (a : atom) (k : option N → str → option str)
    (prev : option N) (s : str) : option str :=
  match s with
  | c :: s' =>
      if atom_match a c then
        match star a k (Some c) s' with
        | Some g => Some g
        | None => k prev s
        end
      else k prev s
  | [] => k prev s
  end.

Fixpoint plus (a : atom) (k : str → option N → str → option str)
    (acc : str) (s : str) : option str :=
  match s with
  | c :: s' =>
      if atom_match a c then
        match plus a k (acc ++ [c]) s' with
        | Some g => Some g
        | None => k (acc ++ [c]) (Some c) s'
        end
      else None
  | [] => None
  end.

(** [match_here r prev s g]: does [r] match at this position?  On
    success the result is group 1. *)
Fixpoint match_here (r : regex) (prev : option N) (s : str) (g : str)
    : option str :=
  match r with
  | [] => Some g
  | One a :: r' =>
      match s with
      | c :: s' =>
          if atom_match a c then match_here r' (Some c) s' g else None
      | [] => None
      end
  | Star a :: r' => star a (λ p t, match_here r' p t g) prev s
  | GroupPlus a :: r' => plus a (λ g' p t, match_here r' p t g') [] s
  | Bol :: r' =>
      match prev with
      | None => match_here r' prev s g
      | Some c => if (c =? 10)%N then match_here r' prev s g else None
      end
  | Eol :: r' =>
      match s with
      | [] => match_here r' prev s g
      | c :: _ => if (c =? 10)%N then match_here r' prev s g else None
      end
  end.

(** Try every start position from the left. *)
Fixpoint search_from (r : regex) (prev : option N) (s : str)
    : option str :=
  match match_here r prev s [] with
  | Some g => Some g
  | None =>
      match s with
      | c :: s' => search_from r (Some c) s'
      | [] => None
      end
  end.

(** [m = re.search(r, s, flags=re.MULTILINE)] followed by [m.group(1)] *)
Definition search (r : regex) (s : str) : option str :=
  search_from r None s.

Definition chars (s : str) : regex := (λ c, One (AChar c)) <$> s.

End Re.

(** ** posixpath *)

Module PosixPath.

Definition sep : N := 47.
Definition dot : str := lit ".".
Definition dotdot : str := lit "..".

Definition isabs (p : str) : bool := Str.startswith [sep] p.

Definition endswith_sep (p : str) : bool :=
  match last p with Some c => (c =? sep)%N | None => false end.

(** [join(a, b)] for two arguments *)
Definition join (a b : str) : str :=
  if isabs b then b
  else if negb (Str.truthy a) || endswith_sep a then a ++ b
  else a ++ [sep] ++ b.

(** [s.split('/')] *)
Fixpoint split_sep (s : str) : list str :=
  match s with
  | [] => [[]]
  | c :: s' =>
      if (c =? sep)%N then [] :: split_sep s'
      else match split_sep s' with
           | h :: t => (c :: h) :: t
           | [] => [[c]]
           end
  end.

(** ['/'.join(comps)] *)
Fixpoint join_sep (comps : list str) : str :=
  match comps with
  | [] => []
  | [c] => c
  | c :: rest => c ++ [sep] ++ join_sep rest
  end.

(** One round of the loop of [normpath] over the components. *)
Definition normpath_step (initial_slashes : nat) (new_comps : list str)
    (comp : str) : list str :=
  if bool_decide (comp = []) || bool_decide (comp = dot) then new_comps
  else if negb (bool_decide (comp = dotdot))
          || (bool_decide (initial_slashes = 0%nat)
              && bool_decide (new_comps = []))
          || (negb (bool_decide (new_comps = []))
              && bool_decide (last new_comps = Some dotdot))
  then new_comps ++ [comp]
  else if negb (bool_decide (new_comps = [])) then removelast new_comps
  else new_comps.

Definition normpath (path : str) : str :=
  if negb (Str.truthy path) then dot
  else
    let initial_slashes :=
      if isabs path then
        if Str.startswith [sep; sep] path
           && negb (Str.startswith [sep; sep; sep] path)
        then 2%nat else 1%nat
      else 0%nat in
    let comps := foldl (normpath_step initial_slashes) [] (split_sep path) in
    let path' := replicate initial_slashes sep ++ join_sep comps in
    if Str.truthy path' then path' else dot.

(** [abspath(path)] with the current directory made explicit *)
Definition abspath (cwd : str) (path : str) : str :=
  if isabs path then normpath path else normpath (join cwd path).

(** Index just after the last separator: [p.rfind('/') + 1] *)
Fixpoint after_last_sep (p : str) : nat :=
  match p with
  | [] => 0
  | c :: p' =>
      let i := after_last_sep p' in
      if bool_decide (i = 0%nat)
      then (if (c =? sep)%N then 1 else 0)%nat
      else S i
  end.

Fixpoint rstrip_sep_rev (r : str) : str :=
  match r with
  | c :: r' => if (c =? sep)%N then rstrip_sep_rev r' else r
  | [] => []
  end.
(** [head.rstrip('/')] *)
Definition rstrip_sep (p : str) : str :=
  reverse (rstrip_sep_rev (reverse p)).

(** [split(p)]: head and tail around the last separator *)
Definition split (p : str) : str * str :=
  let i := after_last_sep p in
  let head := take i p in
  let tail := drop i p in
  let head' :=
    if Str.truthy head && negb (bool_decide (head = replicate (length head) sep))
    then rstrip_sep head else head in
  (head', tail).

Definition dirname (p : str) : str := fst (split p).
Definition basename (p : str) : str := drop (after_last_sep p) p.

End PosixPath.

(** ** Python exceptions and results *)

Inductive exn_class :=
| FileExistsError | FileNotFoundError | PermissionError
| NotADirectoryError | IsADirectoryError      (* subclasses of OSError *)
| UnicodeDecodeError | TypeError
| OperationalError | DatabaseError | IntegrityError | ProgrammingError.

#[global] Instance exn_class_eq_dec : EqDecision exn_class.
Proof. solve_decision. Defined.

Record exn := Exn { exn_cls : exn_class; exn_msg : str }.

Definition is_OSError (c : exn_class) : bool :=
  match c with
  | FileExistsError | FileNotFoundError | PermissionError
  | NotADirectoryError | IsADirectoryError => true
  | _ => false
  end.

Inductive result (A : Type) :=
| Ok (a : A)
| Raise (e : exn).
Arguments Ok {A} a.
Arguments Raise {A} e.

#[global] Instance result_ret : MRet result := λ A a, Ok a.
#[global] Instance result_bind : MBind result := λ A B f r,
  match r with Ok a => f a | Raise e => Raise e end.

(** [str(n)] for an integer *)
Definition str_of_Z (z : Z) : str :=
  lit (DecimalString.NilZero.string_of_int (Z.to_int z)).

(** ** SQLite: the statements the script executes

    Values are stored as given: column affinity is not applied (the script
    binds only text that does not look like a number).  Integers are
    unbounded.  A table keeps its rows in insertion order, which is rowid
    order when rowids are assigned automatically.  Foreign keys, CHECK
    constraints, composite keys and the internal catalogue entries
    ([sqlite_sequence], automatic indexes) are not represented; the only
    triggers are AFTER UPDATE row triggers whose body is a list of UPDATE
    statements. *)

Module Sqlite.

Inductive value :=
| VNull
| VInt (n : Z)
| VText (s : str).

#[global] Instance value_eq_dec : EqDecision value.
Proof. solve_decision. Defined.

#[global] Instance value_countable : Countable value.
Proof.
  refine (inj_countable'
    (λ v, match v with
          | VNull => inl ()
          | VInt n => inr (inl n)
          | VText s => inr (inr s)
          end)
    (λ x, match x with
          | inl _ => VNull
          | inr (inl n) => VInt n
          | inr (inr s) => VText s
          end) _).
  by intros [].
Defined.

Definition is_null (v : value) : bool :=
  match v with VNull => true | _ => false end.

Inductive default_expr :=
| DConst (v : value)
| DCurrentTimestamp.

Record column := Column {
  col_name : str;
  col_type : str;
  col_notnull : bool;
  col_default : option default_expr;
  col_pk : bool;        (* INTEGER PRIMARY KEY: an alias of the rowid *)
  col_unique : bool;
}.

Record table := Table {
  tbl_name : str;
  tbl_cols : list column;
  tbl_rows : list (list value);
  tbl_seq : option Z;   (* AUTOINCREMENT: the largest rowid ever used *)
}.

Inductive expr :=
| EConst (v : value)
| ECol (c : str)              (* a column of the row being updated *)
| ENew (c : str)              (* NEW.c *)
| EOld (c : str)              (* OLD.c *)
| ECurrentTimestamp.

Inductive cond :=
| CAlways
| CEq (a b : expr).           (* a = b *)

(** UPDATE t SET c1 = e1, ... WHERE w *)
Record update_stmt := UpdateStmt {
  upd_table : str;
  upd_set : list (str * expr);
  upd_where : cond;
}.

(** CREATE TRIGGER n AFTER UPDATE ON t FOR EACH ROW WHEN w BEGIN ... END *)
Record trigger := Trigger {
  trg_name : str;
  trg_table : str;
  trg_when : cond;
  trg_body : list update_stmt;
}.

Inductive object :=
| OTable (t : table)
| OView (name : str) (cols : list column)
| OIndex (name : str) (on : str)
| OTrigger (t : trigger).

(** The schema and content of one database file, in creation order. *)
Abbreviation db := (list object).

#[global] Instance default_expr_eq_dec : EqDecision default_expr.
Proof. solve_decision. Defined.
#[global] Instance column_eq_dec : EqDecision column.
Proof. solve_decision. Defined.
#[global] Instance table_eq_dec : EqDecision table.
Proof. solve_decision. Defined.
#[global] Instance expr_eq_dec : EqDecision expr.
Proof. solve_decision. Defined.
#[global] Instance cond_eq_dec : EqDecision cond.
Proof. solve_decision. Defined.
#[global] Instance update_stmt_eq_dec : EqDecision update_stmt.
Proof. solve_decision. Defined.
#[global] Instance trigger_eq_dec : EqDecision trigger.
Proof. solve_decision. Defined.
#[global] Instance object_eq_dec : EqDecision object.
Proof. solve_decision. Defined.

(** *** Catalogue lookups; identifiers compare without regard to ASCII case *)

Definition name_eqb (a b : str) : bool :=
  bool_decide (Str.lower a = Str.lower b).

Definition relation_name (o : object) : option str :=
  match o with
  | OTable t => Some (tbl_name t)
  | OView n _ => Some n
  | _ => None
  end.

Definition is_relation (n : str) (o : object) : bool :=
  match relation_name o with Some m => name_eqb m n | None => false end.

Definition is_index (n : str) (o : object) : bool :=
  match o with OIndex m _ => name_eqb m n | _ => false end.

Definition is_trigger (n : str) (o : object) : bool :=
  match o with OTrigger t => name_eqb (trg_name t) n | _ => false end.

Fixpoint find_object (p : object → bool) (d : db) : option object :=
  match d with
  | [] => None
  | o :: d' => if p o then Some o else find_object p d'
  end.

(** Tables and views share one name space. *)
Definition find_relation (d : db) (n : str) : option object :=
  find_object (is_relation n) d.

(** Store a new version of the relation called [tbl_name t]. *)
Fixpoint put_table (t : table) (d : db) : db :=
  match d with
  | [] => []
  | o :: d' =>
      if is_relation (tbl_name t) o then OTable t :: d'
      else o :: put_table t d'
  end.

(** A table with other rows. *)
Definition with_rows (t : table) (rows : list (list value)) : table :=
  {| tbl_name := tbl_name t; tbl_cols := tbl_cols t;
     tbl_rows := rows; tbl_seq := tbl_seq t |}.

Fixpoint col_index (cols : list column) (n : str) : option nat :=
  match cols with
  | [] => None
  | c :: cols' =>
      if name_eqb (col_name c) n then Some 0%nat
      else S <$> col_index cols' n
  end.

Definition cell (cols : list column) (row : list value) (n : str)
    : option value :=
  i ← col_index cols n; row !! i.

(** *** Statements *)

Record table_def := TableDef {
  def_name : str;
  def_cols : list column;
  def_autoincrement : bool;
}.

Inductive stmt :=
| PragmaForeignKeys (on : bool)
| CreateTableIfNotExists (t : table_def)
| PragmaTableInfo (name : str)
| AlterTableAddColumn (tbl : str) (c : column)
| CreateTriggerIfNotExists (t : trigger)
| InsertOrReplace (tbl : str) (cols : list str) (vals : list value)
| SelectTableExists (name : str)
| SelectCountUserTables
| SelectCount (tbl : str)
| Update (u : update_stmt).

Definition err {A} (c : exn_class) (m : str) : result A := Raise (Exn c m).

Definition readonly {A} : result A :=
  err OperationalError (lit "attempt to write a readonly database").

(** CREATE TABLE IF NOT EXISTS: nothing happens when a table or a view of
    that name exists; an index of that name is an error. *)
Definition create_table_if_not_exists (writable : bool) (t : table_def)
    (d : db) : result db :=
  match find_relation d (def_name t) with
  | Some _ => Ok d
  | None =>
      if existsb (is_index (def_name t)) d then
        err OperationalError
          (lit "there is already an index named " ++ def_name t)
      else if negb writable then readonly
      else Ok (d ++ [OTable {| tbl_name := def_name t;
                               tbl_cols := def_cols t;
                               tbl_rows := [];
                               tbl_seq := if def_autoincrement t
                                          then Some 0%Z else None |}])
  end.

Fixpoint quote_body (s : str) : str :=
  match s with
  | [] => []
  | c :: s' => if (c =? 39)%N then 39%N :: 39%N :: quote_body s'
               else c :: quote_body s'
  end.

(** The text of a default, as PRAGMA table_info reports it. *)
Definition dflt_sql (e : default_expr) : str :=
  match e with
  | DCurrentTimestamp => lit "CURRENT_TIMESTAMP"
  | DConst VNull => lit "NULL"
  | DConst (VInt n) => str_of_Z n
  | DConst (VText s) => [39%N] ++ quote_body s ++ [39%N]
  end.

(** One row of PRAGMA table_info: cid, name, type, notnull, dflt_value, pk *)
Definition table_info_row (cid : nat) (c : column) : list value :=
  [ VInt (Z.of_nat cid); VText (col_name c); VText (col_type c);
    VInt (if col_notnull c then 1 else 0);
    match col_default c with Some e => VText (dflt_sql e) | None => VNull end;
    VInt (if col_pk c then 1 else 0) ].

Definition pragma_table_info (name : str) (d : db) : list (list value) :=
  match find_relation d name with
  | Some (OTable t) => imap table_info_row (tbl_cols t)
  | Some (OView _ cols) => imap table_info_row cols
  | _ => []
  end.

(** The value a constant default gives to the rows that exist already. *)
Definition const_default (c : column) : value :=
  match col_default c with Some (DConst v) => v | _ => VNull end.

(** ALTER TABLE t ADD COLUMN c.  On a table that has rows, a NOT NULL
    column needs a non-NULL default and the default must be constant
    (CURRENT_TIMESTAMP is not). *)
Definition alter_table_add_column (writable : bool) (tbl : str)
    (c : column) (d : db) : result db :=
  match find_relation d tbl with
  | None => err OperationalError (lit "no such table: " ++ tbl)
  | Some (OTable t) =>
      if existsb (λ c', name_eqb (col_name c') (col_name c)) (tbl_cols t) then
        err OperationalError (lit "duplicate column name: " ++ col_name c)
      else if col_pk c then
        err OperationalError (lit "Cannot add a PRIMARY KEY column")
      else if col_unique c then
        err OperationalError (lit "Cannot add a UNIQUE column")
      else if negb (bool_decide (tbl_rows t = []))
              && col_notnull c && is_null (const_default c) then
        err OperationalError
          (lit "Cannot add a NOT NULL column with default value NULL")
      else if negb (bool_decide (tbl_rows t = []))
              && bool_decide (col_default c = Some DCurrentTimestamp) then
        err OperationalError
          (lit "Cannot add a column with non-constant default")
      else if negb writable then readonly
      else Ok (put_table
                 {| tbl_name := tbl_name t;
                    tbl_cols := tbl_cols t ++ [c];
                    tbl_rows := (λ r, r ++ [const_default c]) <$> tbl_rows t;
                    tbl_seq := tbl_seq t |} d)
  | Some _ => err OperationalError (lit "Cannot add a column to a view")
  end.

(** CREATE TRIGGER IF NOT EXISTS ... AFTER UPDATE ON t: the table is
    looked up first, then the trigger name. *)
Definition create_trigger_if_not_exists (writable : bool) (t : trigger)
    (d : db) : result db :=
  match find_relation d (trg_table t) with
  | None => err OperationalError (lit "no such table: main." ++ trg_table t)
  | Some o =>
      if existsb (is_trigger (trg_name t)) d then Ok d
      else match o with
           | OTable _ =>
               if negb writable then readonly else Ok (d ++ [OTrigger t])
           | _ => err OperationalError
                    (lit "cannot create AFTER trigger on view: main."
                     ++ trg_table t)
           end
  end.

(** *** INSERT OR REPLACE *)

Fixpoint assigned (n : str) (cols : list str) (vals : list value)
    : option value :=
  match cols, vals with
  | c :: cols', v :: vals' =>
      if name_eqb c n then Some v else assigned n cols' vals'
  | _, _ => None
  end.

Definition eval_default (now : value) (c : column) : value :=
  match col_default c with
  | Some (DConst v) => v
  | Some DCurrentTimestamp => now
  | None => VNull
  end.

Fixpoint pk_index (cols : list column) : option nat :=
  match cols with
  | [] => None
  | c :: cols' => if col_pk c then Some 0%nat else S <$> pk_index cols'
  end.

Definition rowid_of (cols : list column) (r : list value) : option Z :=
  i ← pk_index cols;
  match r !! i with Some (VInt z) => Some z | _ => None end.

(** The rowids in use, read from the INTEGER PRIMARY KEY column. *)
Definition rowids (t : table) : list Z :=
  omap (rowid_of (tbl_cols t)) (tbl_rows t).

Definition max_rowid (l : list Z) : option Z :=
  foldr (λ z acc, Some (match acc with Some m => Z.max z m | None => z end))
        None l.

(** A fresh rowid: one more than the largest in use, and with
    AUTOINCREMENT also more than the largest ever used. *)
Definition next_rowid (t : table) : Z :=
  match tbl_seq t with
  | Some s => (Z.max s (default 0 (max_rowid (rowids t))) + 1)%Z
  | None => match max_rowid (rowids t) with
            | Some m => (m + 1)%Z
            | None => 1%Z
            end
  end.

(** The cell of column [c] in the row being inserted. *)
Definition new_cell (now : value) (new_id : Z) (cols : list str)
    (vals : list value) (c : column) : result value :=
  let given := default VNull (assigned (col_name c) cols vals) in
  if col_pk c then
    match given with
    | VNull => Ok (VInt new_id)
    | VInt z => Ok (VInt z)
    | VText _ => err IntegrityError (lit "datatype mismatch")
    end
  else
    let v := match assigned (col_name c) cols vals with
             | Some v => v
             | None => eval_default now c
             end in
    (* a NULL in a NOT NULL column is replaced by the default *)
    let v := if col_notnull c && is_null v then eval_default now c else v in
    if col_notnull c && is_null v then
      err IntegrityError (lit "NOT NULL constraint failed: " ++ col_name c)
    else Ok v.

Fixpoint new_row (now : value) (new_id : Z) (cols : list str)
    (vals : list value) (cs : list column) : result (list value) :=
  match cs with
  | [] => Ok []
  | c :: cs' =>
      v ← new_cell now new_id cols vals c;
      r ← new_row now new_id cols vals cs';
      Ok (v :: r)
  end.

(** Do two rows agree on a PRIMARY KEY or UNIQUE column?  NULLs never
    conflict. *)
Fixpoint conflicts (cs : list column) (r r' : list value) : bool :=
  match cs, r, r' with
  | c :: cs', a :: r1, b :: r1' =>
      ((col_pk c || col_unique c) && negb (is_null a) && bool_decide (a = b))
      || conflicts cs' r1 r1'
  | _, _, _ => false
  end.

Definition insert_or_replace (writable : bool) (now : value) (tbl : str)
    (cols : list str) (vals : list value) (d : db) : result db :=
  match find_relation d tbl with
  | None => err OperationalError (lit "no such table: " ++ tbl)
  | Some (OTable t) =>
      if negb (bool_decide (length cols = length vals)) then
        err OperationalError (lit "values do not match the column list")
      else
        match List.filter (λ n, bool_decide (col_index (tbl_cols t) n = None))
                          cols with
        | n :: _ =>
            err OperationalError
              (lit "table " ++ tbl ++ lit " has no column named " ++ n)
        | [] =>
            if negb writable then readonly
            else
              r ← new_row now (next_rowid t) cols vals (tbl_cols t);
              let kept :=
                List.filter (λ r', negb (conflicts (tbl_cols t) r r'))
                            (tbl_rows t) in
              Ok (put_table
                    {| tbl_name := tbl_name t;
                       tbl_cols := tbl_cols t;
                       tbl_rows := kept ++ [r];
                       tbl_seq :=
                         match tbl_seq t, rowid_of (tbl_cols t) r with
                         | Some s, Some z => Some (Z.max s z)
                         | s, _ => s
                         end |} d)
        end
  | Some _ =>
      err OperationalError
        (lit "cannot modify " ++ tbl ++ lit " because it is a view")
  end.

(** *** Queries *)

(** name LIKE 'sqlite_%': [_] stands for any one character, [%] for any
    text, and letters compare without regard to case. *)
Definition like_sqlite_ (name : str) : bool :=
  bool_decide (Str.lower (take 6 name) = lit "sqlite")
  && bool_decide (7 ≤ length name)%nat.

(** SELECT COUNT( * ) FROM sqlite_master
    WHERE type='table' AND name NOT LIKE 'sqlite_%' *)
Definition is_user_table (o : object) : bool :=
  match o with
  | OTable t => negb (like_sqlite_ (tbl_name t))
  | _ => false
  end.

Definition count_user_tables (d : db) : Z :=
  Z.of_nat (length (List.filter is_user_table d)).

(** SELECT 1 FROM sqlite_master WHERE type='table' AND name=?
    (the comparison of the name is exact here) *)
Definition select_table_exists (name : str) (d : db) : list (list value) :=
  omap (λ o, match o with
             | OTable t => if bool_decide (tbl_name t = name)
                           then Some [VInt 1] else None
             | _ => None
             end) d.

(** SELECT COUNT( * ) FROM t *)
Definition select_count (tbl : str) (d : db) : result Z :=
  match find_relation d tbl with
  | Some (OTable t) => Ok (Z.of_nat (length (tbl_rows t)))
  | Some _ =>
      err OperationalError (lit "the rows of a view are not represented")
  | None => err OperationalError (lit "no such table: " ++ tbl)
  end.

(** *** UPDATE and the AFTER UPDATE row triggers *)

(** NEW and OLD of the row whose update fired a trigger. *)
Record trigger_rows := TriggerRows {
  tr_cols : list column;
  tr_new : list value;
  tr_old : list value;
}.

Definition no_such_column {A} (c : str) : result A :=
  err OperationalError (lit "no such column: " ++ c).

Definition eval_expr (now : value) (cols : list column)
    (row : option (list value)) (tr : option trigger_rows) (e : expr)
    : result value :=
  match e with
  | EConst v => Ok v
  | ECurrentTimestamp => Ok now
  | ECol c =>
      match row ≫= (λ r, cell cols r c) with
      | Some v => Ok v
      | None => no_such_column c
      end
  | ENew c =>
      match tr ≫= (λ t, cell (tr_cols t) (tr_new t) c) with
      | Some v => Ok v
      | None => no_such_column (lit "NEW." ++ c)
      end
  | EOld c =>
      match tr ≫= (λ t, cell (tr_cols t) (tr_old t) c) with
      | Some v => Ok v
      | None => no_such_column (lit "OLD." ++ c)
      end
  end.

(** A condition is true, false or NULL ([None]); a comparison with NULL
    is NULL. *)
Definition eval_cond (now : value) (cols : list column)
    (row : option (list value)) (tr : option trigger_rows) (w : cond)
    : result (option bool) :=
  match w with
  | CAlways => Ok (Some true)
  | CEq a b =>
      x ← eval_expr now cols row tr a;
      y ← eval_expr now cols row tr b;
      Ok (if is_null x || is_null y then None
          else Some (bool_decide (x = y)))
  end.

Definition holds (b : option bool) : bool :=
  match b with Some true => true | _ => false end.

(** Positions of the rows that satisfy WHERE, counted from [i]. *)
Fixpoint matching (now : value) (cols : list column)
    (tr : option trigger_rows) (w : cond) (rows : list (list value))
    (i : nat) : result (list nat) :=
  match rows with
  | [] => Ok []
  | r :: rows' =>
      b ← eval_cond now cols (Some r) tr w;
      rest ← matching now cols tr w rows' (S i);
      Ok (if holds b then i :: rest else rest)
  end.

(** SET c1 = e1, ...: every expression reads the row as it was. *)
Fixpoint assign (now : value) (cols : list column) (old : list value)
    (tr : option trigger_rows) (sets : list (str * expr))
    (acc : list value) : result (list value) :=
  match sets with
  | [] => Ok acc
  | (c, e) :: sets' =>
      match col_index cols c with
      | None => no_such_column c
      | Some i =>
          v ← eval_expr now cols (Some old) tr e;
          assign now cols old tr sets' (<[i:=v]> acc)
      end
  end.

(** Constraints on an updated row (conflict resolution ABORT). *)
Fixpoint check_cells (cs : list column) (r : list value) : result unit :=
  match cs, r with
  | c :: cs', v :: r' =>
      if col_notnull c && is_null v then
        err IntegrityError (lit "NOT NULL constraint failed: " ++ col_name c)
      else if col_pk c && negb (match v with VInt _ => true | _ => false end)
      then err IntegrityError (lit "datatype mismatch")
      else check_cells cs' r'
  | _, _ => Ok ()
  end.

Definition check_row (cs : list column) (r : list value)
    (others : list (list value)) : result unit :=
  _ ← check_cells cs r;
  if existsb (conflicts cs r) others then
    err IntegrityError (lit "UNIQUE constraint failed")
  else Ok ().

Definition triggers_on (d : db) (tbl : str) : list trigger :=
  omap (λ o, match o with
             | OTrigger T =>
                 if name_eqb (trg_table T) tbl then Some T else None
             | _ => None
             end) d.

(** Names are resolved when a statement is prepared. *)
Definition expr_ok (cols : list column) (tr : option (list column))
    (e : expr) : bool :=
  match e with
  | EConst _ | ECurrentTimestamp => true
  | ECol c => bool_decide (is_Some (col_index cols c))
  | ENew c | EOld c =>
      match tr with
      | Some tc => bool_decide (is_Some (col_index tc c))
      | None => false
      end
  end.

Definition cond_ok (cols : list column) (tr : option (list column))
    (w : cond) : bool :=
  match w with
  | CAlways => true
  | CEq a b => expr_ok cols tr a && expr_ok cols tr b
  end.

Definition update_ok (d : db) (tr : option (list column))
    (u : update_stmt) : bool :=
  match find_relation d (upd_table u) with
  | Some (OTable t) =>
      forallb (λ ce, bool_decide (is_Some (col_index (tbl_cols t) ce.1))
                     && expr_ok (tbl_cols t) tr ce.2) (upd_set u)
      && cond_ok (tbl_cols t) tr (upd_where u)
  | _ => false
  end.

Definition trigger_ok (d : db) (tcols : list column) (T : trigger) : bool :=
  cond_ok [] (Some tcols) (trg_when T)
  && forallb (update_ok d (Some tcols)) (trg_body T).

(** With recursive_triggers off (the default), a trigger that is already
    running is not entered again. *)
Definition skipped (rt : bool) (active : list str) (T : trigger) : bool :=
  negb rt && bool_decide (trg_name T ∈ active).

Section with_nested.
Context (rt : bool) (now : value).
(** How an UPDATE in a trigger body runs: the names of the triggers
    that are running, NEW and OLD, the statement, the database. *)
Context (nested : list str → trigger_rows → update_stmt → db
                  → result (db * list str)).

Definition run_body (active : list str) (rows : trigger_rows)
    (acc : result (db * list str)) (u : update_stmt)
    : result (db * list str) :=
  a ← acc;
  a' ← nested active rows u a.1;
  Ok (a'.1, a.2 ++ a'.2).

(** Fire [T] for one updated row when its WHEN clause holds. *)
Definition fire_trigger (active : list str) (rows : trigger_rows)
    (acc : result (db * list str)) (T : trigger)
    : result (db * list str) :=
  a ← acc;
  if skipped rt active T then Ok a
  else
    b ← eval_cond now [] None (Some rows) (trg_when T);
    if holds b then
      foldl (run_body (trg_name T :: active) rows)
            (Ok (a.1, a.2 ++ [trg_name T])) (trg_body T)
    else Ok a.

(** Update the row at position [i], then fire the triggers. *)
Definition update_row (active : list str) (tr : option trigger_rows)
    (u : update_stmt) (acc : result (db * list str)) (i : nat)
    : result (db * list str) :=
  a ← acc;
  match find_relation a.1 (upd_table u) with
  | Some (OTable t) =>
      match tbl_rows t !! i with
      | None => Ok a
      | Some old =>
          new ← assign now (tbl_cols t) old tr (upd_set u) old;
          _ ← check_row (tbl_cols t) new
                (take i (tbl_rows t) ++ drop (S i) (tbl_rows t));
          let d1 := put_table (with_rows t (<[i:=new]> (tbl_rows t))) a.1 in
          foldl (fire_trigger active
                   {| tr_cols := tbl_cols t; tr_new := new; tr_old := old |})
                (Ok (d1, a.2)) (triggers_on a.1 (upd_table u))
      end
  | _ => Ok a
  end.
End with_nested.

(** [exec_update depth ...] runs one UPDATE; [depth] is what is left of
    the limit on nested triggers.  The result is the new database and
    the names of the triggers that fired, in order. *)
Fixpoint exec_update (depth : nat) (rt : bool) (now : value)
    (active : list str) (tr : option trigger_rows) (u : update_stmt)
    (d : db) : result (db * list str) :=
  match depth with
  | O => err OperationalError (lit "too many levels of trigger recursion")
  | S depth' =>
      match find_relation d (upd_table u) with
      | None => err OperationalError (lit "no such table: " ++ upd_table u)
      | Some (OTable t) =>
          if negb (update_ok d (tr_cols <$> tr) u) then
            err OperationalError (lit "no such column")
          else if negb (forallb (λ T, skipped rt active T
                                      || trigger_ok d (tbl_cols t) T)
                                (triggers_on d (upd_table u))) then
            err OperationalError (lit "no such column")
          else
            idx ← matching now (tbl_cols t) tr (upd_where u) (tbl_rows t) 0;
            foldl (update_row rt now
                     (λ act rows u' d',
                        exec_update depth' rt now act (Some rows) u' d')
                     active tr u)
                  (Ok (d, [])) idx
      | Some _ =>
          err OperationalError
            (lit "cannot modify " ++ upd_table u ++ lit " because it is a view")
      end
  end.

(** SQLITE_MAX_TRIGGER_DEPTH *)
Definition max_trigger_depth : nat := 1000.

(** *** One statement

    [rt] is PRAGMA recursive_triggers, [writable] whether the file can be
    written, [now] the value of CURRENT_TIMESTAMP for this statement.
    The result is the database after the statement and the rows it
    returns; a statement that fails changes nothing. *)
Definition exec (rt writable : bool) (now : value) (s : stmt) (d : db)
    : result (db * list (list value)) :=
  match s with
  | PragmaForeignKeys _ => Ok (d, [])
  | CreateTableIfNotExists t =>
      d' ← create_table_if_not_exists writable t d; Ok (d', [])
  | PragmaTableInfo n => Ok (d, pragma_table_info n d)
  | AlterTableAddColumn tbl c =>
      d' ← alter_table_add_column writable tbl c d; Ok (d', [])
  | CreateTriggerIfNotExists t =>
      d' ← create_trigger_if_not_exists writable t d; Ok (d', [])
  | InsertOrReplace tbl cols vals =>
      d' ← insert_or_replace writable now tbl cols vals d; Ok (d', [])
  | SelectTableExists n => Ok (d, select_table_exists n d)
  | SelectCountUserTables => Ok (d, [[VInt (count_user_tables d)]])
  | SelectCount tbl => n ← select_count tbl d; Ok (d, [[VInt n]])
  | Update u =>
      if negb writable then readonly
      else a ← exec_update (S max_trigger_depth) rt now [] None u d;
           Ok (a.1, [])
  end.

(** Statements before which the Python module opens a transaction. *)
Definition is_dml (s : stmt) : bool :=
  match s with
  | InsertOrReplace _ _ _ | Update _ => true
  | _ => false
  end.

End Sqlite.

(** ** The host: files, clock, connection

    Paths are keys of one map from absolute normalised names to nodes; there
    are no symbolic links.  Files can always be read and overwritten;
    creating an entry needs a writable directory.  A file is either text or
    a database image; an empty database is an empty file.  Every call into
    SQLite is numbered: [clock n] is CURRENT_TIMESTAMP as the n-th call
    sees it, and [fault n] says whether that call fails for a reason of the
    host (disk, locking). *)

Import Sqlite.

Inductive file_data :=
| Text (s : str)
| Database (d : db).

Inductive node :=
| Dir (writable : bool)
| File (data : file_data).

Record connection := Connection {
  conn_path : str;                  (* the file, as a key *)
  conn_db : db;                     (* the database as the connection sees it *)
  conn_in_txn : bool;               (* a transaction is open *)
  conn_writable : bool;
  conn_notadb : bool;               (* the file is not a database image *)
  conn_foreign_keys : bool;
  conn_recursive_triggers : bool;
  conn_closed : bool;
}.

Inductive event :=
| EPrint (line : str)
| EConnect (path : str)
| EClose (path : str)
| EOpenWrite (path : str)
| EMkdir (path : str).

Record world := World {
  cwd : str;
  fs : gmap str node;
  clock : nat → str;
  fault : nat → bool;
  sql_calls : nat;
  conn : option connection;         (* the local variable [conn] of main *)
  which_sqlite3 : option Z;         (* exit status of `which sqlite3`, if it ran *)
  log : list event;
}.

Definition set_fs (f : gmap str node → gmap str node) (w : world) : world :=
  {| cwd := cwd w; fs := f (fs w); clock := clock w; fault := fault w;
     sql_calls := sql_calls w; conn := conn w;
     which_sqlite3 := which_sqlite3 w; log := log w |}.

Definition set_conn (c : option connection) (w : world) : world :=
  {| cwd := cwd w; fs := fs w; clock := clock w; fault := fault w;
     sql_calls := sql_calls w; conn := c;
     which_sqlite3 := which_sqlite3 w; log := log w |}.

Definition tick (w : world) : world :=
  {| cwd := cwd w; fs := fs w; clock := clock w; fault := fault w;
     sql_calls := S (sql_calls w); conn := conn w;
     which_sqlite3 := which_sqlite3 w; log := log w |}.

Definition emit (e : event) (w : world) : world :=
  {| cwd := cwd w; fs := fs w; clock := clock w; fault := fault w;
     sql_calls := sql_calls w; conn := conn w;
     which_sqlite3 := which_sqlite3 w; log := log w ++ [e] |}.

(** Computations of the script: they read and change the world and either
    return or raise. *)
Definition M (A : Type) : Type := world → result A * world.

Definition ret {A} (a : A) : M A := λ w, (Ok a, w).
Definition raise {A} (e : exn) : M A := λ w, (Raise e, w).
Definition bind {A B} (m : M A) (k : A → M B) : M B := λ w,
  match m w with
  | (Ok a, w') => k a w'
  | (Raise e, w') => (Raise e, w')
  end.

Notation "x <- m ;; k" := (bind m (λ x, k))
  (at level 100, m at next level, right associativity,
   format "'[v' x  <-  m  ;; '/' k ']'").
Notation "m ;; k" := (bind m (λ _, k))
  (at level 100, right associativity, format "'[v' m  ;; '/' k ']'").

(** try: body / except Exception as e: handler e *)
Definition try_except {A} (body : M A) (handler : exn → M A) : M A := λ w,
  match body w with
  | (Ok a, w') => (Ok a, w')
  | (Raise e, w') => handler e w'
  end.

(** try: body / finally: cleanup *)
Definition try_finally {A} (body : M A) (cleanup : M unit) : M A := λ w,
  match body w with
  | (r, w') =>
      match cleanup w' with
      | (Ok _, w'') => (r, w'')
      | (Raise e, w'') => (Raise e, w'')
      end
  end.

Fixpoint for_each {A} (l : list A) (body : A → M unit) : M unit :=
  match l with
  | [] => ret ()
  | x :: l' => body x ;; for_each l' body
  end.

Definition print (line : str) : M unit := λ w, (Ok (), emit (EPrint line) w).

(** *** os and os.path *)

Definition key (w : world) (path : str) : str :=
  PosixPath.abspath (cwd w) path.

Definition os_path_abspath (path : str) : M str := λ w, (Ok (key w path), w).

Definition os_path_exists (path : str) : M bool := λ w,
  (Ok (bool_decide (is_Some (fs w !! key w path))), w).

Definition os_path_isdir (path : str) : M bool := λ w,
  (Ok (match fs w !! key w path with Some (Dir _) => true | _ => false end), w).

(** Can an entry be created at key [k]?  The error otherwise. *)
Definition creatable (w : world) (k : str) : option exn :=
  match fs w !! PosixPath.dirname k with
  | Some (Dir true) => None
  | Some (Dir false) => Some (Exn PermissionError (lit "Permission denied"))
  | Some (File _) => Some (Exn NotADirectoryError (lit "Not a directory"))
  | None => Some (Exn FileNotFoundError (lit "No such file or directory"))
  end.

Definition os_mkdir (path : str) : M unit := λ w,
  let k := key w path in
  match fs w !! k with
  | Some _ => (Raise (Exn FileExistsError (lit "File exists")), w)
  | None =>
      match creatable w k with
      | Some e => (Raise e, w)
      | None => (Ok (), emit (EMkdir k) (set_fs (insert k (Dir true)) w))
      end
  end.

(** [os.makedirs(name, exist_ok=exist_ok)]; the recursion is on the head of
    the path, which gets shorter. *)
Fixpoint os_makedirs_rec (fuel : nat) (name : str) (exist_ok : bool)
    : M unit :=
  match fuel with
  | O => raise (Exn TypeError (lit "maximum recursion depth exceeded"))
  | S fuel' =>
      let '(head, tail) := PosixPath.split name in
      let '(head, tail) :=
        if negb (Str.truthy tail) then PosixPath.split head else (head, tail) in
      head_exists <- os_path_exists head ;;
      go <- (if Str.truthy head && Str.truthy tail && negb head_exists then
               try_except (os_makedirs_rec fuel' head exist_ok)
                 (λ e, if bool_decide (exn_cls e = FileExistsError)
                       then ret () else raise e) ;;
               ret (negb (bool_decide (tail = PosixPath.dot)))
             else ret true) ;;
      if go then
        try_except (os_mkdir name)
          (λ e, if is_OSError (exn_cls e) then
                  isdir <- os_path_isdir name ;;
                  if negb exist_ok || negb isdir then raise e else ret ()
                else raise e)
      else ret ()
  end.

Definition os_makedirs (name : str) (exist_ok : bool) : M unit :=
  os_makedirs_rec (S (length name)) name exist_ok.

(** *** Text files *)

(** [open(path, "r", encoding="utf-8").read()] *)
Definition read_text (path : str) : M str := λ w,
  match fs w !! key w path with
  | Some (File (Text s)) => (Ok (Str.universal_newlines s), w)
  | Some (File (Database [])) => (Ok [], w)
  | Some (File (Database _)) =>
      (Raise (Exn UnicodeDecodeError (lit "invalid start byte")), w)
  | Some (Dir _) => (Raise (Exn IsADirectoryError (lit "Is a directory")), w)
  | None =>
      (Raise (Exn FileNotFoundError (lit "No such file or directory")), w)
  end.

(** [open(path, "w", encoding="utf-8")]: create or truncate *)
Definition open_w (path : str) : M unit := λ w,
  let k := key w path in
  let opened := emit (EOpenWrite k) (set_fs (insert k (File (Text []))) w) in
  match fs w !! k with
  | Some (Dir _) => (Raise (Exn IsADirectoryError (lit "Is a directory")), w)
  | Some (File _) => (Ok (), opened)
  | None =>
      match creatable w k with
      | Some e => (Raise e, w)
      | None => (Ok (), opened)
      end
  end.

(** [f.write(s)] on the file opened at [path] *)
Definition f_write (path : str) (s : str) : M unit := λ w,
  let k := key w path in
  match fs w !! k with
  | Some (File (Text old)) =>
      (Ok (), set_fs (insert k (File (Text (old ++ s)))) w)
  | _ => (Raise (Exn TypeError (lit "I/O operation on closed file")), w)
  end.

(** *** sqlite3 *)

Definition io_error : exn := Exn OperationalError (lit "disk I/O error").

(** [conn = sqlite3.connect(database)]: the file is created when it does
    not exist; a directory cannot be opened. *)
Definition sqlite3_connect (database : str) : M unit := λ w0,
  let n := sql_calls w0 in
  let w := tick w0 in
  let k := key w database in
  let writable :=
    match fs w !! PosixPath.dirname k with Some (Dir true) => true | _ => false end in
  let opened (d : db) (notadb : bool) (w' : world) : result unit * world :=
    (Ok (), emit (EConnect k)
              (set_conn (Some {| conn_path := k; conn_db := d;
                                 conn_in_txn := false;
                                 conn_writable := writable;
                                 conn_notadb := notadb;
                                 conn_foreign_keys := false;
                                 conn_recursive_triggers := false;
                                 conn_closed := false |}) w')) in
  let cantopen : result unit * world :=
    (Raise (Exn OperationalError (lit "unable to open database file")), w) in
  if fault w n then (Raise io_error, w)
  else match fs w !! k with
       | Some (Dir _) => cantopen
       | Some (File (Database d)) => opened d false w
       | Some (File (Text [])) => opened [] false w
       | Some (File (Text _)) => opened [] true w
       | None =>
           if writable
           then opened [] false (set_fs (insert k (File (Database []))) w)
           else cantopen
       end.

Definition is_ddl (s : stmt) : bool :=
  match s with
  | CreateTableIfNotExists _ | AlterTableAddColumn _ _
  | CreateTriggerIfNotExists _ => true
  | _ => false
  end.

(** [cursor.execute(sql, params)]; the result is what the cursor then
    holds.  The module opens a transaction before INSERT and UPDATE;
    outside a transaction a schema statement is committed at once. *)
Definition cursor_execute (s : stmt) : M (list (list value)) := λ w0,
  let n := sql_calls w0 in
  let w := tick w0 in
  match conn w with
  | None => (Raise (Exn ProgrammingError (lit "no connection")), w)
  | Some c =>
      if conn_closed c then
        (Raise (Exn ProgrammingError
                  (lit "Cannot operate on a closed database.")), w)
      else if fault w n then (Raise io_error, w)
      else
        match s with
        | PragmaForeignKeys on =>
            (Ok [], set_conn (Some {| conn_path := conn_path c;
                                      conn_db := conn_db c;
                                      conn_in_txn := conn_in_txn c;
                                      conn_writable := conn_writable c;
                                      conn_notadb := conn_notadb c;
                                      conn_foreign_keys := on;
                                      conn_recursive_triggers :=
                                        conn_recursive_triggers c;
                                      conn_closed := false |}) w)
        | _ =>
            if conn_notadb c then
              (Raise (Exn DatabaseError (lit "file is not a database")), w)
            else
              match exec (conn_recursive_triggers c) (conn_writable c)
                         (VText (clock w n)) s (conn_db c) with
              | Raise e => (Raise e, w)
              | Ok (d', rows) =>
                  let in_txn := conn_in_txn c || is_dml s in
                  let c' := {| conn_path := conn_path c;
                               conn_db := d';
                               conn_in_txn := in_txn;
                               conn_writable := conn_writable c;
                               conn_notadb := false;
                               conn_foreign_keys := conn_foreign_keys c;
                               conn_recursive_triggers :=
                                 conn_recursive_triggers c;
                               conn_closed := false |} in
                  let w' := set_conn (Some c') w in
                  (Ok rows,
                   if is_ddl s && negb in_txn
                   then set_fs (insert (conn_path c) (File (Database d'))) w'
                   else w')
              end
        end
  end.

(** [conn.commit()] *)
Definition conn_commit : M unit := λ w0,
  let n := sql_calls w0 in
  let w := tick w0 in
  match conn w with
  | None => (Raise (Exn ProgrammingError (lit "no connection")), w)
  | Some c =>
      if conn_closed c then
        (Raise (Exn ProgrammingError
                  (lit "Cannot operate on a closed database.")), w)
      else if fault w n then (Raise io_error, w)
      else if conn_in_txn c then
        (Ok (),
         set_fs (insert (conn_path c) (File (Database (conn_db c))))
           (set_conn (Some {| conn_path := conn_path c;
                              conn_db := conn_db c;
                              conn_in_txn := false;
                              conn_writable := conn_writable c;
                              conn_notadb := conn_notadb c;
                              conn_foreign_keys := conn_foreign_keys c;
                              conn_recursive_triggers :=
                                conn_recursive_triggers c;
                              conn_closed := false |}) w))
      else (Ok (), w)
  end.

(** [if "conn" in locals(): conn.close()]; what was not committed is lost. *)
Definition close_conn_if_bound : M unit := λ w,
  match conn w with
  | None => (Ok (), w)
  | Some c =>
      (Ok (), emit (EClose (conn_path c))
                (set_conn (Some {| conn_path := conn_path c;
                                   conn_db := conn_db c;
                                   conn_in_txn := false;
                                   conn_writable := conn_writable c;
                                   conn_notadb := conn_notadb c;
                                   conn_foreign_keys := conn_foreign_keys c;
                                   conn_recursive_triggers :=
                                     conn_recursive_triggers c;
                                   conn_closed := true |}) w))
  end.

(** [cursor.fetchone()[0]] *)
Definition fetchone_0 (rows : list (list value)) : M value :=
  match rows with
  | (v :: _) :: _ => ret v
  | _ => raise (Exn TypeError (lit "'NoneType' object is not subscriptable"))
  end.

(** [f"{v}"] for a value read from the database *)
Definition py_str (v : value) : str :=
  match v with
  | VNull => lit "None"
  | VInt n => str_of_Z n
  | VText s => s
  end.

(** [subprocess.run(["which", "sqlite3"], ...).returncode] *)
Definition subprocess_run_which_sqlite3 : M Z := λ w,
  match which_sqlite3 w with
  | Some rc => (Ok rc, w)
  | None => (Raise (Exn FileNotFoundError (lit "which")), w)
  end.

(** * init_db.py *)

Definition nl : str := [10%N].
Definition dquote : str := [34%N].

Definition DB_NAME : str := lit "myapp.db".
Definition DB_USER : str := lit "kaviasqlite".
Definition DB_PASSWORD : str := lit "kaviadefaultpassword".
Definition DB_PORT : str := lit "5000".

(** r"^#\s*File path:\s*(.+)$" *)
Definition file_path_re : Re.regex :=
  [Re.Bol; Re.One (Re.AChar 35); Re.Star Re.ASpace]
  ++ Re.chars (lit "File path:")
  ++ [Re.Star Re.ASpace; Re.GroupPlus Re.AAny; Re.Eol].

(** r"^#\s*Connection string:\s*sqlite:////(.+)$" *)
Definition connection_string_re : Re.regex :=
  [Re.Bol; Re.One (Re.AChar 35); Re.Star Re.ASpace]
  ++ Re.chars (lit "Connection string:")
  ++ [Re.Star Re.ASpace]
  ++ Re.chars (lit "sqlite:////")
  ++ [Re.GroupPlus Re.AAny; Re.Eol].

(** Parse an absolute SQLite file path from db_connection.txt, if present. *)
Definition _parse_db_path_from_connection_file (path : str)
    : M (option str) :=
  present <- os_path_exists path ;;
  if negb present then ret None
  else
    content <- try_except (c <- read_text path ;; ret (Some c))
                 (λ _, ret None) ;;
    match content with
    | None => ret None
    | Some content =>
        (* Prefer "# File path: /abs/path/to/myapp.db" *)
        match match Re.search file_path_re content with
              | Some g =>
                  let candidate := Str.strip g in
                  if Str.truthy candidate then Some candidate else None
              | None => None
              end with
        | Some candidate => ret (Some candidate)
        | None =>
            (* Fallback: "# Connection string: sqlite:////abs/path" *)
            match Re.search connection_string_re content with
            | Some g =>
                let candidate := [PosixPath.sep] ++ Str.strip g in
                if Str.truthy candidate then ret (Some candidate)
                else ret None
            | None => ret None
            end
        end
    end.

(** Resolve the database path using db_connection.txt if available;
    otherwise default to the local DB_NAME. *)
Definition _resolve_db_path : M str :=
  from_connection <-
    _parse_db_path_from_connection_file (lit "db_connection.txt") ;;
  match from_connection with
  | Some p => if Str.truthy p then os_path_abspath p
              else os_path_abspath DB_NAME
  | None => os_path_abspath DB_NAME
  end.

(** Return True if the table exists in the database. *)
Definition _table_exists (table_name : str) : M bool :=
  rows <- cursor_execute (SelectTableExists table_name) ;;
  ret (match rows with [] => false | _ => true end).

#[global] Instance value_inhabited : Inhabited value := populate VNull.

(** Mapping of column name to (declared type, notnull, default value). *)
Definition _get_table_columns (table_name : str)
    : M (gmap value (value * value * value)) :=
  rows <- cursor_execute (PragmaTableInfo table_name) ;;
  (* PRAGMA table_info: cid, name, type, notnull, dflt_value, pk *)
  ret (foldl (λ m r, <[r !!! 1%nat := (r !!! 2%nat, r !!! 3%nat, r !!! 4%nat)]> m)
             ∅ rows).

(** A column definition suffix for ALTER TABLE ADD COLUMN, such as
    "TEXT NOT NULL DEFAULT ''". *)
Record col_def := ColDef {
  cd_type : str;
  cd_notnull : bool;
  cd_default : option default_expr;
}.

Definition add_column (col_name : str) (d : col_def) : column :=
  {| col_name := col_name; col_type := cd_type d;
     col_notnull := cd_notnull d; col_default := cd_default d;
     col_pk := false; col_unique := false |}.

(** Ensure a table exists and add missing required columns. *)
Definition _ensure_table_with_required_columns (table_name : str)
    (create_sql : stmt) (required_columns : list (str * col_def)) : M unit :=
  cursor_execute create_sql ;;
  existing_cols <- _get_table_columns table_name ;;
  for_each required_columns (λ rc,
    let '(col_name, col_def) := rc in
    if bool_decide (is_Some (existing_cols !! VText col_name)) then ret ()
    else
      cursor_execute
        (AlterTableAddColumn table_name (add_column col_name col_def)) ;;
      ret ()).

(** CREATE TRIGGER IF NOT EXISTS notes_set_updated_at
    AFTER UPDATE ON notes FOR EACH ROW
    WHEN NEW.updated_at = OLD.updated_at
    BEGIN
      UPDATE notes SET updated_at = CURRENT_TIMESTAMP WHERE id = NEW.id;
    END; *)
Definition notes_set_updated_at : trigger :=
  {| trg_name := lit "notes_set_updated_at";
     trg_table := lit "notes";
     trg_when := CEq (ENew (lit "updated_at")) (EOld (lit "updated_at"));
     trg_body :=
       [ {| upd_table := lit "notes";
            upd_set := [(lit "updated_at", ECurrentTimestamp)];
            upd_where := CEq (ECol (lit "id")) (ENew (lit "id")) |} ] |}.

(** Ensure a trigger exists to auto-update notes.updated_at on UPDATE. *)
Definition _ensure_notes_updated_at_trigger : M unit :=
  cursor_execute (CreateTriggerIfNotExists notes_set_updated_at) ;;
  ret ().

Definition id_column : column :=
  {| col_name := lit "id"; col_type := lit "INTEGER"; col_notnull := false;
     col_default := None; col_pk := true; col_unique := false |}.

Definition text_column (name type : str) (notnull unique : bool)
    (dflt : option default_expr) : column :=
  {| col_name := name; col_type := type; col_notnull := notnull;
     col_default := dflt; col_pk := false; col_unique := unique |}.

(** CREATE TABLE IF NOT EXISTS app_info (
      id INTEGER PRIMARY KEY AUTOINCREMENT,
      key TEXT UNIQUE NOT NULL,
      value TEXT,
      created_at TIMESTAMP DEFAULT CURRENT_TIMESTAMP) *)
Definition app_info_def : table_def :=
  {| def_name := lit "app_info";
     def_cols :=
       [ id_column;
         text_column (lit "key") (lit "TEXT") true true None;
         text_column (lit "value") (lit "TEXT") false false None;
         text_column (lit "created_at") (lit "TIMESTAMP") false false
           (Some DCurrentTimestamp) ];
     def_autoincrement := true |}.

(** CREATE TABLE IF NOT EXISTS users (
      id INTEGER PRIMARY KEY AUTOINCREMENT,
      username TEXT UNIQUE NOT NULL,
      email TEXT UNIQUE NOT NULL,
      created_at TIMESTAMP DEFAULT CURRENT_TIMESTAMP) *)
Definition users_def : table_def :=
  {| def_name := lit "users";
     def_cols :=
       [ id_column;
         text_column (lit "username") (lit "TEXT") true true None;
         text_column (lit "email") (lit "TEXT") true true None;
         text_column (lit "created_at") (lit "TIMESTAMP") false false
           (Some DCurrentTimestamp) ];
     def_autoincrement := true |}.

(** CREATE TABLE IF NOT EXISTS notes (
      id INTEGER PRIMARY KEY AUTOINCREMENT,
      title TEXT NOT NULL,
      content TEXT NOT NULL,
      created_at TEXT DEFAULT CURRENT_TIMESTAMP,
      updated_at TEXT DEFAULT CURRENT_TIMESTAMP) *)
Definition notes_def : table_def :=
  {| def_name := lit "notes";
     def_cols :=
       [ id_column;
         text_column (lit "title") (lit "TEXT") true false None;
         text_column (lit "content") (lit "TEXT") true false None;
         text_column (lit "created_at") (lit "TEXT") false false
           (Some DCurrentTimestamp);
         text_column (lit "updated_at") (lit "TEXT") false false
           (Some DCurrentTimestamp) ];
     def_autoincrement := true |}.

Definition notes_required_columns : list (str * col_def) :=
  [ (lit "title", ColDef (lit "TEXT") true (Some (DConst (VText []))));
    (lit "content", ColDef (lit "TEXT") true (Some (DConst (VText []))));
    (lit "created_at", ColDef (lit "TEXT") false (Some DCurrentTimestamp));
    (lit "updated_at", ColDef (lit "TEXT") false (Some DCurrentTimestamp)) ].

(** Lines 141-192 of main: the three tables and the trigger. *)
Definition ensure_schema : M unit :=
  _ensure_table_with_required_columns (lit "app_info")
    (CreateTableIfNotExists app_info_def) [] ;;
  _ensure_table_with_required_columns (lit "users")
    (CreateTableIfNotExists users_def) [] ;;
  _ensure_table_with_required_columns (lit "notes")
    (CreateTableIfNotExists notes_def) notes_required_columns ;;
  _ensure_notes_updated_at_trigger.

(** "INSERT OR REPLACE INTO app_info (key, value) VALUES (?, ?)" *)
Definition upsert_app_info (k v : str) : stmt :=
  InsertOrReplace (lit "app_info") [lit "key"; lit "value"] [VText k; VText v].

(** Lines 194-210 of main: the initial data.  The literal of the
    description row is a parameter; main passes the empty string. *)
Definition seed_app_info (description : str) : M unit :=
  cursor_execute (upsert_app_info (lit "project_name") (lit "database")) ;;
  cursor_execute (upsert_app_info (lit "version") (lit "0.1.0")) ;;
  cursor_execute (upsert_app_info (lit "author") (lit "John Doe")) ;;
  cursor_execute (upsert_app_info (lit "description") description) ;;
  ret ().

(** Lines 137-220 of main: the body of the try statement. *)
Definition database_phase (db_path : str) : M (value * value) :=
  sqlite3_connect db_path ;;
  cursor_execute (PragmaForeignKeys true) ;;
  ensure_schema ;;
  seed_app_info [] ;;
  conn_commit ;;
  (* Get database statistics *)
  rows <- cursor_execute SelectCountUserTables ;;
  table_count <- fetchone_0 rows ;;
  rows <- cursor_execute (SelectCount (lit "app_info")) ;;
  record_count <- fetchone_0 rows ;;
  ret (table_count, record_count).

(** Lines 233-237 of main: the with statement that writes
    db_connection.txt. *)
Definition write_connection_file (db_path connection_string : str) : M unit :=
  open_w (lit "db_connection.txt") ;;
  f_write (lit "db_connection.txt")
    (lit "# SQLite connection methods:" ++ nl) ;;
  f_write (lit "db_connection.txt")
    (lit "# Python: sqlite3.connect('" ++ PosixPath.basename db_path
     ++ lit "')" ++ nl) ;;
  f_write (lit "db_connection.txt")
    (lit "# Connection string: " ++ connection_string ++ nl) ;;
  f_write (lit "db_connection.txt")
    (lit "# File path: " ++ db_path ++ nl).

(** Lines 248-249 of main: the with statement that writes
    db_visualizer/sqlite.env. *)
Definition write_env_file (db_path : str) : M unit :=
  open_w (lit "db_visualizer/sqlite.env") ;;
  f_write (lit "db_visualizer/sqlite.env")
    (lit "export SQLITE_DB=" ++ dquote ++ db_path ++ dquote ++ nl).

(** Main entrypoint: connect, ensure schema, write helper files. *)
Definition main : M unit :=
  print (lit "Starting SQLite setup...") ;;
  db_path <- _resolve_db_path ;;
  let db_dir :=
    if Str.truthy (PosixPath.dirname db_path) then PosixPath.dirname db_path
    else PosixPath.dot in
  os_makedirs db_dir true ;;
  db_exists <- os_path_exists db_path ;;
  (if db_exists
   then print (lit "SQLite database already exists at " ++ db_path)
   else print (lit "Creating new SQLite database at " ++ db_path ++ lit "...")) ;;
  stats <- try_finally
             (try_except (database_phase db_path)
                (λ e, print (lit "Database setup failed: " ++ exn_msg e) ;;
                      raise e))
             close_conn_if_bound ;;
  let '(table_count, record_count) := stats in
  (* Save connection information to a file *)
  let connection_string := lit "sqlite:///" ++ db_path in
  try_except
    (write_connection_file db_path connection_string ;;
     print (lit "Connection information saved to db_connection.txt"))
    (λ e, print (lit "Warning: Could not save connection info: "
                 ++ exn_msg e)) ;;
  (* Create environment variables file for Node.js viewer *)
  visualizer_exists <- os_path_exists (lit "db_visualizer") ;;
  (if negb visualizer_exists then
     os_makedirs (lit "db_visualizer") true ;;
     print (lit "Created db_visualizer directory")
   else ret ()) ;;
  try_except
    (write_env_file db_path ;;
     print (lit "Environment variables saved to db_visualizer/sqlite.env"))
    (λ e, print (lit "Warning: Could not save environment variables: "
                 ++ exn_msg e)) ;;
  print (nl ++ lit "SQLite setup complete!") ;;
  print (lit "Database: " ++ PosixPath.basename db_path) ;;
  print (lit "Location: " ++ db_path ++ nl) ;;
  print (lit "Schema initialization / migration notes:") ;;
  print (lit "  - This script can be rerun safely; it creates missing tables and adds missing columns.") ;;
  print (lit "  - The notes.updated_at field is maintained via a trigger on UPDATE." ++ nl) ;;
  print (lit "To use with Node.js viewer, run: source db_visualizer/sqlite.env" ++ nl) ;;
  print (lit "To connect to the database, use one of the following methods:") ;;
  print (lit "1. Python: sqlite3.connect('" ++ PosixPath.basename db_path
         ++ lit "')") ;;
  print (lit "2. Connection string: " ++ connection_string) ;;
  print (lit "3. Direct file access: " ++ db_path ++ nl) ;;
  print (lit "Database statistics:") ;;
  print (lit "  Tables: " ++ py_str table_count) ;;
  print (lit "  App info records: " ++ py_str record_count) ;;
  (* If sqlite3 CLI is available, show how to use it *)
  try_except
    (rc <- subprocess_run_which_sqlite3 ;;
     if bool_decide (rc = 0%Z) then
       print (nl ++ lit "SQLite CLI is available. You can also use:") ;;
       print (lit "  sqlite3 " ++ PosixPath.basename db_path)
     else ret ())
    (λ _, ret ()) ;;
  print (nl ++ lit "Script completed successfully.").

(** The exit status of the process: an exception that leaves main ends it
    with status 1. *)
Definition exit_status (r : result unit) : Z :=
  match r with Ok _ => 0 | Raise _ => 1 end.

(** * Definitions used in the statements below *)

(** How the statements of a trigger body run at nesting depth [depth]. *)
Definition nested_at (depth : nat) (rt : bool) (now : value)
    (act : list str) (rows : trigger_rows) (u : update_stmt) (d : db)
    : result (db * list str) :=
  exec_update depth rt now act (Some rows) u d.

(** A row of the notes table as the script declares it: an integer id, and
    title and content that are not NULL. *)
Definition notes_row_ok (r : list value) : Prop :=
  ∃ k ti co cr up, r = [VInt k; ti; co; cr; up] ∧ ti ≠ VNull ∧ co ≠ VNull.

(** A notes table with the declared columns whose rows respect the
    declared constraints (the primary key is unique). *)
Definition notes_table_ok (t : table) : Prop :=
  tbl_cols t = def_cols notes_def
  ∧ Forall notes_row_ok (tbl_rows t)
  ∧ NoDup (rowids t).

(** UPDATE notes SET c = v WHERE id = k *)
Definition update_note (c : str) (v : value) (k : Z) : update_stmt :=
  {| upd_table := lit "notes";
     upd_set := [(c, EConst v)];
     upd_where := CEq (ECol (lit "id")) (EConst (VInt k)) |}.

(** Two notes with ids 1 and 2, and the trigger. *)
Definition two_notes_rows : list (list value) :=
  [ [VInt 1; VText (lit "a"); VText (lit "x");
     VText (lit "2024-01-01 10:00:00"); VText (lit "2024-01-01 10:00:00")];
    [VInt 2; VText (lit "b"); VText (lit "y");
     VText (lit "2024-01-01 11:00:00"); VText (lit "2024-01-01 11:00:00")] ].

Definition two_notes_table : table :=
  {| tbl_name := lit "notes"; tbl_cols := def_cols notes_def;
     tbl_rows := two_notes_rows; tbl_seq := Some 2%Z |}.

Definition two_notes_db : db :=
  [OTable two_notes_table; OTrigger notes_set_updated_at].

(** The id of a notes row, and the positions of the rows with a given id. *)
Definition note_id (r : list value) : option Z :=
  match r with VInt k :: _ => Some k | _ => None end.

Fixpoint id_positions (k : Z) (rows : list (list value)) (off : nat)
    : list nat :=
  match rows with
  | [] => []
  | r :: rs =>
      if bool_decide (note_id r = Some k)
      then off :: id_positions k rs (S off)
      else id_positions k rs (S off)
  end.



(** The updated_at of the note with id [k]. *)
Definition updated_at_of (d : db) (k : Z) : option value :=
  match find_relation d (lit "notes") with
  | Some (OTable t) =>
      r ← List.find (λ r, bool_decide (note_id r = Some k)) (tbl_rows t);
      cell (tbl_cols t) r (lit "updated_at")
  | _ => None
  end.


(** ** Additive changes

    [db_extends d d']: every object of [d] is still there, in place;
    a table may have gained columns at the end, each row keeping all its
    cells; new objects come after the old ones. *)
Definition table_extends (t t' : table) : Prop :=
  tbl_name t' = tbl_name t
  ∧ tbl_cols t `prefix_of` tbl_cols t'
  ∧ Forall2 (λ r r' : list value, r `prefix_of` r') (tbl_rows t) (tbl_rows t')
  ∧ tbl_seq t' = tbl_seq t.

Definition object_extends (o o' : object) : Prop :=
  match o, o' with
  | OTable t, OTable t' => table_extends t t'
  | _, _ => o = o'
  end.

Definition db_extends (d d' : db) : Prop :=
  ∃ kept added, d' = kept ++ added ∧ Forall2 object_extends d kept.

(** The database as the connection of the script sees it. *)
Definition view (w : world) : db :=
  match conn w with Some c => conn_db c | None => [] end.

(** What a run of the schema ensurer may change: the connection's
    database is extended, and the only file written is the database file,
    which receives an extension of what the connection saw. *)
Definition additive (w w' : world) : Prop :=
  cwd w' = cwd w
  ∧ conn_path <$> conn w' = conn_path <$> conn w
  ∧ db_extends (view w) (view w')
  ∧ ∀ k, fs w' !! k = fs w !! k
         ∨ ∃ c d1, conn w = Some c ∧ k = conn_path c
                   ∧ fs w' !! k = Some (File (Database d1))
                   ∧ db_extends (view w) d1.

(** [m] relates every world to the world it leaves, whether it returns or
    raises. *)
Definition preserves {A} (R : world → world → Prop) (m : M A) : Prop :=
  ∀ w, R w (m w).2.

(** ** Paths and the descriptor file *)

(** The text of db_connection.txt as main writes it for [db_path]. *)
Definition descriptor_text (db_path : str) : str :=
  (lit "# SQLite connection methods:" ++ nl)
  ++ (lit "# Python: sqlite3.connect('" ++ PosixPath.basename db_path
      ++ lit "')" ++ nl)
  ++ (lit "# Connection string: " ++ (lit "sqlite:///" ++ db_path) ++ nl)
  ++ (lit "# File path: " ++ db_path ++ nl).

(** [l] occurs in [s]. *)
Definition occurs_in (l s : str) : Prop := ∃ a b, s = a ++ l ++ b.



(** What the specification says of writing the descriptor for [p] and
    resolving again. *)
Definition descriptor_round_trip (w : world) (p : str) : Prop :=
  ∀ w1, write_connection_file p (lit "sqlite:///" ++ p) w = (Ok (), w1) →
        (_resolve_db_path w1).1 = Ok p.

(** A small host: the directories /, /tmp, /data and /work, the last being
    the working directory; the clock stands still and nothing fails. *)
Definition demo_world (files : list (str * node)) : world :=
  {| cwd := lit "/work";
     fs := list_to_map files
           ∪ {[ lit "/" := Dir true; lit "/tmp" := Dir true;
                lit "/data" := Dir true; lit "/work" := Dir true ]};
     clock := λ _, lit "2024-01-01 00:00:00";
     fault := λ _, false;
     sql_calls := 0;
     conn := None;
     which_sqlite3 := Some 1%Z;
     log := [] |}.

(** The character before a position that lies after [l], when [prev] is
    the character before [l]. *)
Definition last_or (prev : option N) (l : str) : option N :=
  match last l with Some c => Some c | None => prev end.

(** What _parse_db_path_from_connection_file makes of the text it read. *)
Definition parse_descriptor (content : str) : option str :=
  match match Re.search file_path_re content with
        | Some g =>
            let candidate := Str.strip g in
            if Str.truthy candidate then Some candidate else None
        | None => None
        end with
  | Some candidate => Some candidate
  | None =>
      match Re.search connection_string_re content with
      | Some g =>
          let candidate := [PosixPath.sep] ++ Str.strip g in
          if Str.truthy candidate then Some candidate else None
      | None => None
      end
  end.

(** A path as it can stand on one line of the descriptor: not empty, no
    line break, no white space at either end. *)
Definition fits_on_a_line (p : str) : Prop :=
  (10%N ∉ p) ∧ (13%N ∉ p)
  ∧ (∃ c, head p = Some c ∧ Str.isspace c = false)
  ∧ (∃ c, last p = Some c ∧ Str.isspace c = false).

(** ** The three stages of main *)

(** Lines 124-134 of main: what runs before the try statement; the result
    is [db_path]. *)
Definition before_database_phase : M str :=
  print (lit "Starting SQLite setup...") ;;
  db_path <- _resolve_db_path ;;
  let db_dir :=
    if Str.truthy (PosixPath.dirname db_path) then PosixPath.dirname db_path
    else PosixPath.dot in
  os_makedirs db_dir true ;;
  db_exists <- os_path_exists db_path ;;
  (if db_exists
   then print (lit "SQLite database already exists at " ++ db_path)
   else print (lit "Creating new SQLite database at " ++ db_path ++ lit "...")) ;;
  ret db_path.

(** Lines 136-227 of main: the try statement with its handler and its
    cleanup. *)
Definition guarded_database_phase (db_path : str) : M (value * value) :=
  try_finally
    (try_except (database_phase db_path)
       (λ e, print (lit "Database setup failed: " ++ exn_msg e) ;;
             raise e))
    close_conn_if_bound.

(** Lines 254-283 of main: the report. *)
Definition report (db_path : str) (stats : value * value) : M unit :=
  let '(table_count, record_count) := stats in
  let connection_string := lit "sqlite:///" ++ db_path in
  print (nl ++ lit "SQLite setup complete!") ;;
  print (lit "Database: " ++ PosixPath.basename db_path) ;;
  print (lit "Location: " ++ db_path ++ nl) ;;
  print (lit "Schema initialization / migration notes:") ;;
  print (lit "  - This script can be rerun safely; it creates missing tables and adds missing columns.") ;;
  print (lit "  - The notes.updated_at field is maintained via a trigger on UPDATE." ++ nl) ;;
  print (lit "To use with Node.js viewer, run: source db_visualizer/sqlite.env" ++ nl) ;;
  print (lit "To connect to the database, use one of the following methods:") ;;
  print (lit "1. Python: sqlite3.connect('" ++ PosixPath.basename db_path
         ++ lit "')") ;;
  print (lit "2. Connection string: " ++ connection_string) ;;
  print (lit "3. Direct file access: " ++ db_path ++ nl) ;;
  print (lit "Database statistics:") ;;
  print (lit "  Tables: " ++ py_str table_count) ;;
  print (lit "  App info records: " ++ py_str record_count) ;;
  try_except
    (rc <- subprocess_run_which_sqlite3 ;;
     if bool_decide (rc = 0%Z) then
       print (nl ++ lit "SQLite CLI is available. You can also use:") ;;
       print (lit "  sqlite3 " ++ PosixPath.basename db_path)
     else ret ())
    (λ _, ret ()) ;;
  print (nl ++ lit "Script completed successfully.").

(** Lines 229-283 of main: what runs after the try statement. *)
Definition after_database_phase (db_path : str) (stats : value * value)
    : M unit :=
  let connection_string := lit "sqlite:///" ++ db_path in
  try_except
    (write_connection_file db_path connection_string ;;
     print (lit "Connection information saved to db_connection.txt"))
    (λ e, print (lit "Warning: Could not save connection info: "
                 ++ exn_msg e)) ;;
  visualizer_exists <- os_path_exists (lit "db_visualizer") ;;
  (if negb visualizer_exists then
     os_makedirs (lit "db_visualizer") true ;;
     print (lit "Created db_visualizer directory")
   else ret ()) ;;
  try_except
    (write_env_file db_path ;;
     print (lit "Environment variables saved to db_visualizer/sqlite.env"))
    (λ e, print (lit "Warning: Could not save environment variables: "
                 ++ exn_msg e)) ;;
  report db_path stats.

(** The world once the cleanup of the try statement has run. *)
Definition after_cleanup (w : world) : world := (close_conn_if_bound w).2.

(** No connection is open: [conn] is unbound or closed. *)
Definition no_open_connection (w : world) : Prop :=
  match conn w with Some c => conn_closed c = true | None => True end.

(** A working directory that cannot be written, with a descriptor that
    names a database in /data. *)
Definition readonly_cwd_world : world :=
  {| cwd := lit "/work";
     fs := {[ lit "/" := Dir true; lit "/data" := Dir true;
              lit "/work" := Dir false;
              lit "/work/db_connection.txt" :=
                File (Text (lit "# File path: /data/x.db" ++ nl)) ]};
     clock := λ _, lit "2024-01-01 00:00:00";
     fault := λ _, false;
     sql_calls := 0;
     conn := None;
     which_sqlite3 := Some 1%Z;
     log := [] |}.

(** The connection is bound and open. *)
Definition conn_live (w : world) : Prop :=
  ∃ c, conn w = Some c ∧ conn_closed c = false.

(** A step that never unbinds or closes a live connection. *)
Definition keeps_live (w w' : world) : Prop := conn_live w → conn_live w'.




(** ** What a run leaves behind *)

(** The database image stored at [path], if there is one. *)
Definition database_at (w : world) (path : str) : option db :=
  match fs w !! path with
  | Some (File (Database d)) => Some d
  | _ => None
  end.




(** The rows of the table called [n]. *)
Definition rows_of (d : db) (n : str) : option (list (list value)) :=
  match find_relation d n with
  | Some (OTable t) => Some (tbl_rows t)
  | _ => None
  end.

(** The key and value cells of the rows of app_info, row by row. *)
Definition key_values (rows : list (list value))
    : list (option value * option value) :=
  (λ r, (r !! 1%nat, r !! 2%nat)) <$> rows.


(** ** Running twice *)



(** The schema of a database: its objects in the order of their creation,
    the tables without their rows and counters. *)
Definition schema_of (d : db) : db :=
  (λ o, match o with
        | OTable t => OTable {| tbl_name := tbl_name t;
                                tbl_cols := tbl_cols t;
                                tbl_rows := [];
                                tbl_seq := None |}
        | _ => o
        end) <$> d.

(** The key and value cells of app_info in the database stored at [p]. *)
Definition app_info_at (w : world) (p : str)
    : list (option value * option value) :=
  match database_at w p with
  | Some d => key_values (default [] (rows_of d (lit "app_info")))
  | None => []
  end.

(** What the specification says of two runs in succession from [w], for
    the database at [p]: the second run does not raise, and it leaves the
    schema and the keys and values of app_info as the first run left
    them. *)
Definition two_runs_as_one (w : world) (p : str) : Prop :=
  let once := (main w).2 in
  let twice := (main once).2 in
  (main once).1 = Ok ()
  ∧ schema_of <$> database_at twice p = schema_of <$> database_at once p
  ∧ app_info_at twice p ≡ₚ app_info_at once p.

(** A descriptor that names the environment file as the database. *)
Definition clobbering_world : world :=
  demo_world
    [(lit "/work/db_connection.txt",
      File (Text (lit "# File path: db_visualizer/sqlite.env" ++ nl)))].





(** ** Relations between the world before and after a computation *)

(** [m] returns from every world, and [R] relates that world to the one
    it leaves. *)
Definition returns {A} (R : world → world → Prop) (m : M A) : Prop :=
  ∀ w, ∃ a, (m w).1 = Ok a ∧ R w (m w).2.

(** The files are as they were. *)
Definition same_files (w w' : world) : Prop :=
  cwd w' = cwd w ∧ fault w' = fault w ∧ fs w' = fs w.

(** Only the entry at [k] may have changed; it has not vanished, and if it
    was a directory it is as it was. *)
Definition only_at (k : str) (w w' : world) : Prop :=
  cwd w' = cwd w ∧ fault w' = fault w
  ∧ (∀ k', k' ≠ k → fs w' !! k' = fs w !! k')
  ∧ (is_Some (fs w !! k) → is_Some (fs w' !! k))
  ∧ (∀ b, fs w !! k = Some (Dir b) → fs w' !! k = Some (Dir b)).

(** A connection to the file [p] is open on a host that does not fail; it
    sees the database [d], can write, and is inside a transaction or not as
    [txn] says. *)
Definition session (p : str) (d : db) (txn : bool) (w : world) : Prop :=
  (∀ n, fault w n = false)
  ∧ ∃ c, conn w = Some c ∧ conn_path c = p ∧ conn_db c = d
         ∧ conn_in_txn c = txn ∧ conn_writable c = true
         ∧ conn_notadb c = false ∧ conn_closed c = false.

(** Only the file that [path] names may have changed. *)
Definition only_file (path : str) (w w' : world) : Prop :=
  only_at (key w path) w w'.



(** One note whose updated_at is NULL, and the trigger. *)
Definition null_note_table : table :=
  {| tbl_name := lit "notes"; tbl_cols := def_cols notes_def;
     tbl_rows := [ [VInt 1; VText (lit "a"); VText (lit "x");
                    VText (lit "2024-01-01 10:00:00"); VNull] ];
     tbl_seq := Some 1%Z |}.

Definition null_note_db : db :=
  [OTable null_note_table; OTrigger notes_set_updated_at].

(** ** Names and statements of the helper functions *)




(** The connection main has after the schema ensurer ran in an empty
    working directory. *)
Definition schema_ready_world : world :=
  ((sqlite3_connect (lit "/work/myapp.db") ;;
    cursor_execute (PragmaForeignKeys true) ;;
    ensure_schema) (demo_world [])).2.

(** A connection to a database from before the script: notes has only its
    id column; [rows] are its rows. *)
Definition old_notes_db (rows : list (list value)) : db :=
  [OTable {| tbl_name := lit "notes"; tbl_cols := [id_column];
             tbl_rows := rows; tbl_seq := None |}].

Definition old_notes_world (rows : list (list value)) : world :=
  ((sqlite3_connect (lit "/work/myapp.db") ;;
    cursor_execute (PragmaForeignKeys true))
     (demo_world [(lit "/work/myapp.db",
                   File (Database (old_notes_db rows)))])).2.

(** Nothing was removed: the working directory is the same, every entry
    of the file system is still there, and what was a directory is the
    same directory. *)
Definition nothing_removed (w w' : world) : Prop :=
  cwd w' = cwd w
  ∧ ∀ k, (is_Some (fs w !! k) → is_Some (fs w' !! k))
         ∧ (∀ b, fs w !! k = Some (Dir b) → fs w' !! k = Some (Dir b)).

(** The file of the connection, if one is bound, is not a directory. *)
Definition conn_on_file (w : world) : Prop :=
  ∀ c, conn w = Some c → ∀ b, fs w !! conn_path c ≠ Some (Dir b).

(** Nothing was removed, given that the connection is on a file, which
    then is still so. *)
Definition nothing_removed_by_sql (w w' : world) : Prop :=
  conn_on_file w → nothing_removed w w' ∧ conn_on_file w'.

(** A working directory in which neither helper file can be written:
    db_connection.txt is a directory, and db_visualizer is a directory
    without write permission. *)
Definition unwritable_helpers_world : world :=
  demo_world [(lit "/work/db_connection.txt", Dir true);
              (lit "/work/db_visualizer", Dir false)].

Module PathExamples.
Import PosixPath.
Example normpath_1 : normpath (lit "/tmp//a/./b/../x.db") = lit "/tmp/a/x.db".
Proof. vm_compute. reflexivity. Qed.
Example normpath_2 : normpath (lit "//a/") = lit "//a".
Proof. vm_compute. reflexivity. Qed.
Example normpath_3 : normpath (lit "///a/../..") = lit "/".
Proof. vm_compute. reflexivity. Qed.
Example normpath_4 : normpath (lit "../a/../../b") = lit "../../b".
Proof. vm_compute. reflexivity. Qed.
Example abspath_1 : abspath (lit "/work") (lit "myapp.db") = lit "/work/myapp.db".
Proof. vm_compute. reflexivity. Qed.
Example dirname_1 : dirname (lit "/work/myapp.db") = lit "/work".
Proof. vm_compute. reflexivity. Qed.
Example dirname_2 : dirname (lit "/myapp.db") = lit "/".
Proof. vm_compute. reflexivity. Qed.
Example dirname_3 : dirname (lit "myapp.db") = [].
Proof. vm_compute. reflexivity. Qed.
Example basename_1 : basename (lit "/work/myapp.db") = lit "myapp.db".
Proof. vm_compute. reflexivity. Qed.
Example split_1 : split (lit "/a//b") = (lit "/a", lit "b").
Proof. vm_compute. reflexivity. Qed.
End PathExamples.

(** * Properties of the SQLite model *)

Section catalogue.

Lemma name_eqb_eq a b : name_eqb a b = true ↔ Str.lower a = Str.lower b.
Proof. unfold name_eqb. by rewrite bool_decide_eq_true. Qed.

Lemma name_eqb_refl a : name_eqb a a = true.
Proof. by apply name_eqb_eq. Qed.

Lemma name_eqb_congr a b c :
  name_eqb a b = true → name_eqb c a = name_eqb c b.
Proof.
  intros H%name_eqb_eq. unfold name_eqb. by rewrite H.
Qed.

Lemma is_relation_congr a b o :
  name_eqb a b = true → is_relation a o = is_relation b o.
Proof.
  intros H. unfold is_relation. destruct (relation_name o); [|done].
  by apply name_eqb_congr.
Qed.

Lemma find_object_ext p q d :
  (∀ o, p o = q o) → find_object p d = find_object q d.
Proof. intros H. induction d as [|o d IH]; simpl; [done|]. by rewrite H, IH. Qed.

Lemma find_relation_congr a b d :
  name_eqb a b = true → find_relation d a = find_relation d b.
Proof. intros H. apply find_object_ext. intros o. by apply is_relation_congr. Qed.

Lemma find_object_Some p d o : find_object p d = Some o → p o = true ∧ o ∈ d.
Proof.
  induction d as [|o' d IH]; simpl; [done|].
  destruct (p o') eqn:E.
  - intros [= <-]. split; [done|]. by left.
  - intros H. destruct (IH H). split; [done|]. by right.
Qed.

Lemma find_relation_table_name d n t :
  find_relation d n = Some (OTable t) → name_eqb (tbl_name t) n = true.
Proof. intros [H _]%find_object_Some. exact H. Qed.

(** Reading back the table that was just stored. *)
Lemma find_relation_put_table d n t t' :
  find_relation d n = Some (OTable t) →
  tbl_name t' = tbl_name t →
  find_relation (put_table t' d) n = Some (OTable t').
Proof.
  intros Hf Hn. pose proof (find_relation_table_name _ _ _ Hf) as Hnm.
  unfold find_relation in *.
  induction d as [|o d IH]; simpl in *; [done|].
  rewrite Hn, (is_relation_congr _ _ _ Hnm).
  destruct (is_relation n o) eqn:E; simpl.
  - unfold is_relation at 1. simpl. by rewrite Hn, Hnm.
  - rewrite E. by apply IH.
Qed.

Lemma put_table_put_table d t t' :
  tbl_name t' = tbl_name t → put_table t' (put_table t d) = put_table t' d.
Proof.
  intros Hn. induction d as [|o d IH]; simpl; [done|].
  rewrite Hn. destruct (is_relation (tbl_name t) o) eqn:E; simpl.
  - unfold is_relation at 1. simpl. by rewrite Hn, name_eqb_refl.
  - by rewrite Hn, E, IH.
Qed.

Lemma triggers_on_put_table d t n :
  triggers_on (put_table t d) n = triggers_on d n.
Proof.
  unfold triggers_on. induction d as [|o d IH]; simpl; [done|].
  destruct (is_relation (tbl_name t) o) eqn:E; simpl.
  - by destruct o.
  - destruct o as [| | |T]; try exact IH.
    destruct (name_eqb (trg_table T) n); [f_equal|]; exact IH.
Qed.

End catalogue.

Lemma foldl_Raise {A B} (f : result A → B → result A) (l : list B) e :
  (∀ b, f (Raise e) b = Raise e) → foldl f (Raise e) l = Raise e.
Proof. intros H. induction l as [|b l IH]; simpl; [done|]. by rewrite H. Qed.

Lemma put_table_id d n t :
  find_relation d n = Some (OTable t) → put_table t d = d.
Proof.
  intros Hf. pose proof (find_relation_table_name _ _ _ Hf) as Hnm.
  unfold find_relation in Hf.
  induction d as [|o d IH]; simpl in *; [done|].
  rewrite (is_relation_congr _ _ _ Hnm).
  destruct (is_relation n o); [by injection Hf as ->|].
  by rewrite IH.
Qed.

Lemma with_rows_id t : with_rows t (tbl_rows t) = t.
Proof. by destruct t. Qed.

Section update_frame.
Context (rt : bool) (now : value).
Context (nested : list str → trigger_rows → update_stmt → db
                  → result (db * list str)).

Lemma fire_trigger_skipped active rows a T :
  skipped rt active T = true →
  fire_trigger rt now nested active rows (Ok a) T = Ok a.
Proof. intros H. unfold fire_trigger. simpl. by rewrite H. Qed.

Lemma fire_triggers_all_skipped active rows a Ts :
  Forall (λ T, skipped rt active T = true) Ts →
  foldl (fire_trigger rt now nested active rows) (Ok a) Ts = Ok a.
Proof.
  induction 1 as [|T Ts HT _ IH]; cbn [foldl]; [done|].
  by rewrite fire_trigger_skipped.
Qed.

Lemma update_row_Raise active tr u e i :
  update_row rt now nested active tr u (Raise e) i = Raise e.
Proof. done. Qed.

Lemma update_row_all_skipped active tr u d fired i t old :
  find_relation d (upd_table u) = Some (OTable t) →
  tbl_rows t !! i = Some old →
  Forall (λ T, skipped rt active T = true) (triggers_on d (upd_table u)) →
  update_row rt now nested active tr u (Ok (d, fired)) i =
    new ← assign now (tbl_cols t) old tr (upd_set u) old;
    _ ← check_row (tbl_cols t) new
          (take i (tbl_rows t) ++ drop (S i) (tbl_rows t));
    Ok (put_table (with_rows t (<[i:=new]> (tbl_rows t))) d, fired).
Proof.
  intros Hf Hi Hs. unfold update_row. simpl. rewrite Hf, Hi.
  destruct (assign _ _ _ _ _ _) as [new|e]; simpl; [|done].
  destruct (check_row _ _ _) as [[]|e]; simpl; [|done].
  by apply fire_triggers_all_skipped.
Qed.

(** When no trigger is entered, an UPDATE changes only rows at the
    positions it is run for. *)
Lemma update_rows_frame active tr u idx : ∀ d fired d' fired' t,
  find_relation d (upd_table u) = Some (OTable t) →
  Forall (λ T, skipped rt active T = true) (triggers_on d (upd_table u)) →
  foldl (update_row rt now nested active tr u) (Ok (d, fired)) idx
    = Ok (d', fired') →
  ∃ rows', d' = put_table (with_rows t rows') d
           ∧ length rows' = length (tbl_rows t)
           ∧ fired' = fired
           ∧ ∀ i, i ∉ idx → rows' !! i = tbl_rows t !! i.
Proof.
  induction idx as [|i idx IH]; intros d fired d' fired' t Hf Hs; cbn [foldl].
  - intros [= <- <-]. exists (tbl_rows t).
    rewrite with_rows_id, (put_table_id _ _ _ Hf). done.
  - destruct (tbl_rows t !! i) as [old|] eqn:Hi.
    + rewrite (update_row_all_skipped _ _ _ _ _ _ _ _ Hf Hi Hs).
      destruct (assign _ _ _ _ _ _) as [new|e]; simpl;
        [|by rewrite foldl_Raise].
      destruct (check_row _ _ _) as [[]|e]; simpl;
        [|by rewrite foldl_Raise].
      intros H.
      set (t1 := with_rows t (<[i:=new]> (tbl_rows t))) in *.
      assert (find_relation (put_table t1 d) (upd_table u) = Some (OTable t1))
        as Hf1 by by apply (find_relation_put_table _ _ t).
      assert (Forall (λ T, skipped rt active T = true)
                (triggers_on (put_table t1 d) (upd_table u))) as Hs1
        by by rewrite triggers_on_put_table.
      destruct (IH _ _ _ _ _ Hf1 Hs1 H) as (rows' & -> & Hlen & -> & Hrows).
      exists rows'. split_and!.
      * by rewrite (put_table_put_table _ t1).
      * rewrite Hlen. simpl. by rewrite length_insert.
      * done.
      * intros j Hj. rewrite Hrows by set_solver. simpl.
        apply list_lookup_insert_ne. set_solver.
    + replace (update_row rt now nested active tr u (Ok (d, fired)) i)
        with (Ok (d, fired) : result (db * list str))
        by (unfold update_row; simpl; by rewrite Hf, Hi).
      intros H. destruct (IH _ _ _ _ _ Hf Hs H) as (rows' & -> & Hlen & -> & Hrows).
      exists rows'. split_and!; [done..|]. intros j Hj. apply Hrows. set_solver.
Qed.

End update_frame.

Lemma matching_sound now cols tr w rows : ∀ k idx i,
  matching now cols tr w rows k = Ok idx → i ∈ idx →
  ∃ r b, (k ≤ i)%nat ∧ rows !! (i - k)%nat = Some r
         ∧ eval_cond now cols (Some r) tr w = Ok b ∧ holds b = true.
Proof.
  induction rows as [|r rows IH]; intros k idx i; simpl.
  - intros [= <-]. set_solver.
  - destruct (eval_cond now cols (Some r) tr w) as [b|e] eqn:Hb; simpl; [|done].
    destruct (matching now cols tr w rows (S k)) as [rest|e] eqn:Hr; simpl; [|done].
    intros [= <-] Hi.
    assert (i ∈ rest → ∃ r0 b0, (k ≤ i)%nat ∧ (r :: rows) !! (i - k)%nat = Some r0
              ∧ eval_cond now cols (Some r0) tr w = Ok b0 ∧ holds b0 = true) as Hrest.
    { intros Hin. destruct (IH _ _ _ Hr Hin) as (r0 & b0 & Hle & Hl & He & Hh).
      exists r0, b0. split_and!; [lia| |done..].
      replace (i - k)%nat with (S (i - S k)) by lia. done. }
    destruct (holds b) eqn:Hh; [|by auto].
    apply elem_of_cons in Hi as [->|Hi]; [|by auto].
    exists r, b. rewrite Nat.sub_diag. by split_and!.
Qed.

(** An UPDATE that enters no trigger leaves alone every row that does not
    satisfy its WHERE clause. *)
Lemma exec_update_frame depth rt now active tr u d d' fired t :
  find_relation d (upd_table u) = Some (OTable t) →
  Forall (λ T, skipped rt active T = true) (triggers_on d (upd_table u)) →
  exec_update depth rt now active tr u d = Ok (d', fired) →
  ∃ rows', d' = put_table (with_rows t rows') d
           ∧ length rows' = length (tbl_rows t)
           ∧ fired = []
           ∧ ∀ i r, tbl_rows t !! i = Some r →
               (∀ b, eval_cond now (tbl_cols t) (Some r) tr (upd_where u) = Ok b
                     → holds b = false) →
               rows' !! i = Some r.
Proof.
  intros Hf Hs. destruct depth as [|depth]; simpl; [done|]. rewrite Hf.
  destruct (negb (update_ok _ _ _)); [done|].
  destruct (negb (forallb _ _)); [done|].
  destruct (matching _ _ _ _ _ _) as [idx|e] eqn:Hm; simpl; [|done].
  intros H.
  destruct (update_rows_frame _ _ _ _ _ _ _ _ _ _ _ _ Hf Hs H)
    as (rows' & -> & Hlen & -> & Hrows).
  exists rows'. split_and!; [done..|].
  intros i r Hi Hno. rewrite Hrows; [done|].
  intros Hin. destruct (matching_sound _ _ _ _ _ _ _ _ Hm Hin)
    as (r0 & b & _ & Hl & He & Hh).
  rewrite Nat.sub_0_r, Hi in Hl. injection Hl as <-.
  by rewrite (Hno _ He) in Hh.
Qed.

(** ** The trigger's own UPDATE *)

(** C10: when notes_set_updated_at fires for an updated row, its UPDATE
    leaves every notes row whose id differs from NEW.id as it was (all of
    its columns), keeps the number of rows, and changes nothing else in the
    database; any two rows it does change carry the same id. *)
Theorem trigger_update_is_restricted_to_new_id
    (depth : nat) (now : value) (active : list str) (rows : trigger_rows)
    (d d' : db) (fired fired' : list str) (t : table) :
  find_relation d (lit "notes") = Some (OTable t) →
  triggers_on d (lit "notes") = [notes_set_updated_at] →
  fire_trigger false now (nested_at depth false now) active rows
    (Ok (d, fired)) notes_set_updated_at = Ok (d', fired') →
  ∃ rows',
    d' = put_table (with_rows t rows') d
    ∧ length rows' = length (tbl_rows t)
    ∧ (∀ i r, tbl_rows t !! i = Some r →
          cell (tbl_cols t) r (lit "id")
            ≠ cell (tr_cols rows) (tr_new rows) (lit "id") →
          rows' !! i = Some r)
    ∧ (∀ i j ri rj, tbl_rows t !! i = Some ri → tbl_rows t !! j = Some rj →
          rows' !! i ≠ Some ri → rows' !! j ≠ Some rj →
          cell (tbl_cols t) ri (lit "id") = cell (tbl_cols t) rj (lit "id")).
Proof.
  intros Hf Ht Hfire.
  assert (∃ rows', d' = put_table (with_rows t rows') d
            ∧ length rows' = length (tbl_rows t)
            ∧ (∀ i r, tbl_rows t !! i = Some r →
                  cell (tbl_cols t) r (lit "id")
                    ≠ cell (tr_cols rows) (tr_new rows) (lit "id") →
                  rows' !! i = Some r)) as (rows' & Hd & Hlen & Hrows).
  { unfold fire_trigger in Hfire. cbn [mbind result_bind] in Hfire.
    destruct (skipped false active notes_set_updated_at) eqn:Hsk.
    { injection Hfire as <- <-. exists (tbl_rows t).
      by rewrite with_rows_id, (put_table_id _ _ _ Hf). }
    destruct (eval_cond now [] None (Some rows) _) as [b|e];
      cbn [mbind result_bind] in Hfire; [|done].
    destruct (holds b).
    2:{ injection Hfire as <- <-. exists (tbl_rows t).
        by rewrite with_rows_id, (put_table_id _ _ _ Hf). }
    unfold run_body, nested_at in Hfire.
    cbn [foldl trg_body trg_name notes_set_updated_at mbind result_bind fst snd]
      in Hfire.
    destruct (exec_update depth false now _ (Some rows) _ d)
      as [[d1 f1]|e] eqn:Hx; cbn [mbind result_bind fst snd] in Hfire; [|done].
    injection Hfire as <- <-.
    eapply exec_update_frame in Hx as (rows' & -> & Hlen & -> & Hrows).
    - exists rows'. split_and!; [done..|].
      intros i r Hi Hne. apply Hrows; [done|].
      intros b'. simpl. unfold eval_cond, eval_expr. simpl.
      destruct (cell (tbl_cols t) r (lit "id")) as [x|] eqn:Hx; simpl; [|done].
      destruct (cell (tr_cols rows) (tr_new rows) (lit "id")) as [y|] eqn:Hy;
        simpl; [|done].
      intros [= <-]. destruct (is_null x || is_null y); [done|]. simpl.
      rewrite bool_decide_eq_false_2; [done|congruence].
    - exact Hf.
    - simpl. rewrite Ht. repeat constructor. }
  exists rows'. split_and!; [done..|].
  intros i j ri rj Hi Hj Hci Hcj.
  destruct (decide (cell (tbl_cols t) ri (lit "id")
                    = cell (tr_cols rows) (tr_new rows) (lit "id"))) as [Ei|Ni];
    [|by destruct Hci; eauto].
  destruct (decide (cell (tbl_cols t) rj (lit "id")
                    = cell (tr_cols rows) (tr_new rows) (lit "id"))) as [Ej|Nj];
    [|by destruct Hcj; eauto].
  congruence.
Qed.

(** The trigger fires for note 1 after an update that kept its cells:
    note 2 is untouched. *)
Lemma trigger_update_is_restricted_to_new_id_witness :
  ∃ rows',
    [OTable (with_rows two_notes_table
               (<[0%nat := [VInt 1; VText (lit "a"); VText (lit "x");
                            VText (lit "2024-01-01 10:00:00");
                            VText (lit "2024-06-01 00:00:00")]]> two_notes_rows));
     OTrigger notes_set_updated_at]
    = put_table (with_rows two_notes_table rows') two_notes_db
    ∧ length rows' = length (tbl_rows two_notes_table)
    ∧ (∀ i r, tbl_rows two_notes_table !! i = Some r →
          cell (tbl_cols two_notes_table) r (lit "id")
            ≠ cell (def_cols notes_def)
                   [VInt 1; VText (lit "a"); VText (lit "x");
                    VText (lit "2024-01-01 10:00:00");
                    VText (lit "2024-01-01 10:00:00")] (lit "id") →
          rows' !! i = Some r)
    ∧ (∀ i j ri rj, tbl_rows two_notes_table !! i = Some ri →
          tbl_rows two_notes_table !! j = Some rj →
          rows' !! i ≠ Some ri → rows' !! j ≠ Some rj →
          cell (tbl_cols two_notes_table) ri (lit "id")
          = cell (tbl_cols two_notes_table) rj (lit "id")).
Proof.
  apply (trigger_update_is_restricted_to_new_id 5
           (VText (lit "2024-06-01 00:00:00")) []
           {| tr_cols := def_cols notes_def;
              tr_new := [VInt 1; VText (lit "a"); VText (lit "x");
                         VText (lit "2024-01-01 10:00:00");
                         VText (lit "2024-01-01 10:00:00")];
              tr_old := [VInt 1; VText (lit "a"); VText (lit "x");
                         VText (lit "2024-01-01 10:00:00");
                         VText (lit "2024-01-01 10:00:00")] |}
           two_notes_db _ [] [lit "notes_set_updated_at"] two_notes_table).
  - vm_compute. reflexivity.
  - vm_compute. reflexivity.
  - vm_compute. reflexivity.
Defined.

(** ** Updating one note *)

Section notes.
Context (now : value).

Lemma rowid_of_notes r : rowid_of (def_cols notes_def) r = note_id r.
Proof. by destruct r as [|[] ?]. Qed.

Lemma rowids_notes t :
  tbl_cols t = def_cols notes_def → rowids t = omap note_id (tbl_rows t).
Proof.
  intros Hc. unfold rowids. rewrite Hc.
  induction (tbl_rows t) as [|r rs IH]; [done|].
  cbn [omap list_omap]. rewrite rowid_of_notes.
  destruct (note_id r); [f_equal|]; exact IH.
Qed.

Lemma note_id_ok r : notes_row_ok r → ∃ k, note_id r = Some k.
Proof. intros (k & ? & ? & ? & ? & -> & _). by exists k. Qed.

Lemma eval_id_col tr k rest :
  eval_expr now (def_cols notes_def) (Some (VInt k :: rest)) tr (ECol (lit "id"))
  = Ok (VInt k).
Proof. reflexivity. Qed.

(** WHERE id = e, when [e] is the integer [k] whatever the row. *)
Lemma matching_id tr e k rows : ∀ off,
  Forall notes_row_ok rows →
  (∀ r, eval_expr now (def_cols notes_def) (Some r) tr e = Ok (VInt k)) →
  matching now (def_cols notes_def) tr (CEq (ECol (lit "id")) e) rows off
  = Ok (id_positions k rows off).
Proof.
  induction rows as [|r rs IH]; intros off Hok He; [done|].
  apply Forall_cons in Hok as [(k' & ti & co & cr & up & -> & _) Hrs].
  cbn [matching eval_cond]. rewrite eval_id_col, He.
  cbn [mbind result_bind is_null orb]. rewrite (IH (S off) Hrs He).
  cbn [mbind result_bind id_positions note_id holds].
  destruct (decide (k' = k)) as [->|Hne].
  - by rewrite !bool_decide_eq_true_2.
  - rewrite !bool_decide_eq_false_2; [done|congruence..].
Qed.

Lemma id_positions_nil (k : Z) (rows : list (list value)) : ∀ off,
  Some k ∉ note_id <$> rows → id_positions k rows off = [].
Proof.
  induction rows as [|r rs IH]; intros off Hn; [done|].
  cbn [id_positions]. rewrite fmap_cons in Hn.
  rewrite bool_decide_eq_false_2 by set_solver.
  apply IH. set_solver.
Qed.

Lemma omap_note_id_elem (k : Z) (rows : list (list value)) :
  Some k ∈ note_id <$> rows ↔ k ∈ omap note_id rows.
Proof.
  rewrite list_elem_of_omap, list_elem_of_fmap. naive_solver.
Qed.

Lemma id_positions_unique (k : Z) (rows : list (list value)) : ∀ off i r,
  NoDup (omap note_id rows) →
  rows !! i = Some r → note_id r = Some k →
  id_positions k rows off = [(off + i)%nat].
Proof.
  induction rows as [|r0 rs IH]; intros off i r Hnd Hi Hk; [done|].
  cbn [id_positions]. destruct i as [|i]; simpl in Hi.
  - injection Hi as ->. rewrite bool_decide_eq_true_2 by done.
    rewrite Nat.add_0_r. f_equal. apply id_positions_nil.
    cbn [omap list_omap] in Hnd. rewrite Hk in Hnd.
    apply NoDup_cons in Hnd as [Hnk _].
    by rewrite omap_note_id_elem.
  - assert (k ∈ omap note_id rs) as Hin.
    { apply list_elem_of_omap. exists r. split; [|done].
      by eapply list_elem_of_lookup_2. }
    cbn [omap list_omap] in Hnd.
    destruct (note_id r0) as [k0|] eqn:Hk0.
    + apply NoDup_cons in Hnd as [Hnk Hnd].
      rewrite bool_decide_eq_false_2 by (intros [= ->]; done).
      rewrite (IH (S off) i r Hnd Hi Hk). f_equal. lia.
    + rewrite bool_decide_eq_false_2 by done.
      rewrite (IH (S off) i r Hnd Hi Hk). f_equal. lia.
Qed.

Lemma conflicts_notes k ti co cr up r' :
  notes_row_ok r' →
  conflicts (def_cols notes_def) [VInt k; ti; co; cr; up] r'
  = bool_decide (note_id r' = Some k).
Proof.
  intros (k' & ? & ? & ? & ? & -> & _). cbn.
  rewrite !orb_false_r.
  destruct (decide (k = k')) as [->|Hne].
  - by rewrite !bool_decide_eq_true_2.
  - rewrite !bool_decide_eq_false_2; [done|congruence..].
Qed.

Lemma check_row_notes k ti co cr up others :
  ti ≠ VNull → co ≠ VNull →
  Forall notes_row_ok others →
  Some k ∉ note_id <$> others →
  check_row (def_cols notes_def) [VInt k; ti; co; cr; up] others = Ok ().
Proof.
  intros Hti Hco Hok Hk. unfold check_row.
  replace (check_cells (def_cols notes_def) [VInt k; ti; co; cr; up])
    with (Ok () : result ()) by (by destruct ti, co).
  cbn [mbind result_bind].
  replace (existsb _ others) with false; [done|].
  symmetry. apply not_true_iff_false. intros (r' & Hin & Hc)%existsb_exists.
  apply list_elem_of_In in Hin.
  rewrite conflicts_notes in Hc by (by eapply Forall_forall in Hok).
  apply bool_decide_eq_true in Hc.
  apply Hk. rewrite <- Hc. by apply list_elem_of_fmap_2.
Qed.

(** The other rows do not carry the id of row [i]. *)
Lemma others_ids (rows : list (list value)) i r (k : Z) :
  NoDup (omap note_id rows) → rows !! i = Some r → note_id r = Some k →
  Some k ∉ note_id <$> (take i rows ++ drop (S i) rows).
Proof.
  intros Hnd Hi Hk.
  rewrite <- (take_drop_middle _ _ _ Hi) in Hnd.
  rewrite omap_app in Hnd. cbn [omap list_omap] in Hnd. rewrite Hk in Hnd.
  apply NoDup_app in Hnd as (_ & Hd & Hnd).
  apply NoDup_cons in Hnd as [Hnk _].
  rewrite fmap_app, elem_of_app, !omap_note_id_elem.
  intros [H|H]; [|done]. apply (Hd _ H). by left.
Qed.

End notes.

Section one_note.
Context (now : value).

Lemma omap_note_id_insert (rows : list (list value)) i old new :
  rows !! i = Some old → note_id new = note_id old →
  omap note_id (<[i:=new]> rows) = omap note_id rows.
Proof.
  revert i. induction rows as [|r rs IH]; intros i Hi Hn; [done|].
  destruct i as [|i]; simpl in Hi.
  - injection Hi as ->. cbn [list_insert insert omap list_omap]. by rewrite Hn.
  - cbn [omap list_omap]. change (<[S i:=new]> (r :: rs)) with (r :: <[i:=new]> rs).
    cbn [omap list_omap]. specialize (IH i Hi Hn).
    destruct (note_id r); [f_equal|]; exact IH.
Qed.

Lemma notes_table_ok_insert t i k ti co cr up ti' co' cr' up' :
  notes_table_ok t →
  tbl_rows t !! i = Some [VInt k; ti; co; cr; up] →
  ti' ≠ VNull → co' ≠ VNull →
  notes_table_ok (with_rows t (<[i:=[VInt k; ti'; co'; cr'; up']]> (tbl_rows t))).
Proof.
  intros (Hc & Hok & Hnd) Hi Hti Hco. split_and!; [done| |].
  - simpl. apply Forall_insert; [done|]. by exists k, ti', co', cr', up'.
  - rewrite rowids_notes in * by done. simpl.
    by erewrite omap_note_id_insert.
Qed.

Lemma trigger_ok_notes d t :
  find_relation d (lit "notes") = Some (OTable t) →
  tbl_cols t = def_cols notes_def →
  trigger_ok d (def_cols notes_def) notes_set_updated_at = true.
Proof.
  intros Hf Hc. unfold trigger_ok, update_ok.
  cbn [trg_when trg_body notes_set_updated_at forallb upd_table].
  rewrite Hf, Hc. reflexivity.
Qed.

(** The UPDATE of the trigger body, run for the row at position [i]. *)
Lemma trigger_body_run depth act d t i k ti co cr up old :
  find_relation d (lit "notes") = Some (OTable t) →
  notes_table_ok t →
  triggers_on d (lit "notes") = [notes_set_updated_at] →
  tbl_rows t !! i = Some [VInt k; ti; co; cr; up] →
  exec_update (S depth) false now (lit "notes_set_updated_at" :: act)
    (Some {| tr_cols := def_cols notes_def;
             tr_new := [VInt k; ti; co; cr; up]; tr_old := old |})
    {| upd_table := lit "notes";
       upd_set := [(lit "updated_at", ECurrentTimestamp)];
       upd_where := CEq (ECol (lit "id")) (ENew (lit "id")) |} d
  = Ok (put_table
          (with_rows t (<[i:=[VInt k; ti; co; cr; now]]> (tbl_rows t))) d, []).
Proof.
  intros Hf Hok Ht Hi. pose proof Hok as (Hc & Hrows & Hnd).
  rewrite rowids_notes in Hnd by done.
  assert (ti ≠ VNull ∧ co ≠ VNull) as [Hti Hco].
  { apply list_elem_of_lookup_2 in Hi.
    eapply Forall_forall in Hrows; [|exact Hi].
    destruct Hrows as (? & ? & ? & ? & ? & Heq & ? & ?).
    by injection Heq as <- <- <- <- <-. }
  cbn [exec_update upd_table]. rewrite Hf.
  replace (update_ok d _ _) with true
    by (unfold update_ok; cbn [upd_table]; rewrite Hf, Hc; reflexivity).
  cbn [negb upd_table]. rewrite Ht.
  replace (forallb _ [notes_set_updated_at]) with true by reflexivity.
  cbn [negb upd_where]. rewrite Hc.
  rewrite (matching_id now _ _ k) by (done || reflexivity).
  rewrite (id_positions_unique k _ 0 i _ Hnd Hi) by done.
  cbn [mbind result_bind foldl Nat.add].
  erewrite update_row_all_skipped; [|exact Hf|exact Hi|].
  2:{ cbn [upd_table]. rewrite Ht. repeat constructor. }
  rewrite Hc.
  replace (assign _ _ _ _ _ _) with (Ok [VInt k; ti; co; cr; now] : result _)
    by reflexivity.
  cbn [mbind result_bind].
  rewrite check_row_notes; [done..| |].
  - apply Forall_app. split; [by apply Forall_take|by apply Forall_drop].
  - by eapply others_ids.
Qed.

(** A statement that updates the note with id [k] and keeps its id and
    its updated_at: the trigger fires once, unless updated_at is NULL. *)
Lemma update_one_note depth d t i k ti co cr up ti' co' cr' sets :
  find_relation d (lit "notes") = Some (OTable t) →
  notes_table_ok t →
  triggers_on d (lit "notes") = [notes_set_updated_at] →
  tbl_rows t !! i = Some [VInt k; ti; co; cr; up] →
  forallb (λ ce, bool_decide (is_Some (col_index (def_cols notes_def) ce.1))
                 && expr_ok (def_cols notes_def) None ce.2) sets = true →
  assign now (def_cols notes_def) [VInt k; ti; co; cr; up] None sets
    [VInt k; ti; co; cr; up] = Ok [VInt k; ti'; co'; cr'; up] →
  ti' ≠ VNull → co' ≠ VNull →
  exec_update (S (S depth)) false now [] None
    {| upd_table := lit "notes"; upd_set := sets;
       upd_where := CEq (ECol (lit "id")) (EConst (VInt k)) |} d
  = Ok (put_table
          (with_rows t
             (<[i:=[VInt k; ti'; co'; cr'; if is_null up then up else now]]>
                (tbl_rows t))) d,
        if is_null up then [] else [lit "notes_set_updated_at"]).
Proof.
  intros Hf Hok Ht Hi Hsets Hassign Hti Hco.
  pose proof Hok as (Hc & Hrows & Hnd).
  rewrite rowids_notes in Hnd by done.
  remember (S depth) as dn eqn:Hdn.
  cbn [exec_update upd_table fmap option_fmap option_map]. rewrite Hf.
  replace (update_ok d _ _) with true.
  2:{ unfold update_ok. cbn [upd_table upd_set upd_where]. rewrite Hf, Hc, Hsets.
      reflexivity. }
  cbn [negb upd_table]. rewrite Ht, Hc. cbn [forallb].
  rewrite (trigger_ok_notes _ _ Hf Hc), orb_true_r.
  cbn [negb andb upd_where].
  rewrite (matching_id now _ _ k) by (done || reflexivity).
  rewrite (id_positions_unique k _ 0 i _ Hnd Hi) by done.
  cbn [mbind result_bind foldl Nat.add].
  unfold update_row. cbn [mbind result_bind fst snd upd_table upd_set].
  rewrite Hf, Hi, Hc, Hassign. cbn [mbind result_bind].
  rewrite check_row_notes; [|done..| |].
  2:{ apply Forall_app. split; [by apply Forall_take|by apply Forall_drop]. }
  2:{ by eapply others_ids. }
  cbn [mbind result_bind]. rewrite Ht. cbn [foldl].
  unfold fire_trigger. cbn [mbind result_bind fst snd].
  replace (skipped false [] notes_set_updated_at) with false by reflexivity.
  replace (eval_cond now [] None _ (trg_when notes_set_updated_at))
    with (Ok (if is_null up || is_null up then None
              else Some (bool_decide (up = up))) : result (option bool))
    by reflexivity.
  cbn [mbind result_bind]. rewrite orb_diag.
  destruct (is_null up) eqn:Hup; [done|].
  rewrite bool_decide_eq_true_2 by done. cbn [holds].
  cbn [trg_body trg_name notes_set_updated_at foldl].
  unfold run_body. cbn [mbind result_bind fst snd].
  set (t1 := with_rows t (<[i:=[VInt k; ti'; co'; cr'; up]]> (tbl_rows t))).
  assert (find_relation (put_table t1 d) (lit "notes") = Some (OTable t1))
    as Hf1 by by apply (find_relation_put_table _ _ t).
  assert (notes_table_ok t1) as Hok1 by by eapply notes_table_ok_insert.
  assert (tbl_rows t1 !! i = Some [VInt k; ti'; co'; cr'; up]) as Hi1.
  { simpl. apply list_lookup_insert_eq. by eapply lookup_lt_Some. }
  subst dn.
  rewrite (trigger_body_run depth [] _ t1 i k ti' co' cr' up _ Hf1 Hok1
             ltac:(by rewrite triggers_on_put_table) Hi1).
  cbn [mbind result_bind fst snd].
  rewrite (put_table_put_table _ t1) by done.
  unfold t1. simpl. by rewrite list_insert_insert_eq.
Qed.

End one_note.

Lemma find_note_unique (k : Z) (rows : list (list value)) i r :
  NoDup (omap note_id rows) → rows !! i = Some r → note_id r = Some k →
  List.find (λ r, bool_decide (note_id r = Some k)) rows = Some r.
Proof.
  revert i. induction rows as [|r0 rs IH]; intros i Hnd Hi Hk; [done|].
  cbn [List.find]. destruct i as [|i]; simpl in Hi.
  - injection Hi as ->. by rewrite bool_decide_eq_true_2.
  - cbn [omap list_omap] in Hnd.
    assert (k ∈ omap note_id rs) as Hin.
    { apply list_elem_of_omap. exists r. split; [|done].
      by eapply list_elem_of_lookup_2. }
    destruct (note_id r0) as [k0|] eqn:Hk0.
    + apply NoDup_cons in Hnd as [Hnk Hnd].
      rewrite bool_decide_eq_false_2 by (intros [= ->]; done). by eapply IH.
    + rewrite bool_decide_eq_false_2 by done. by eapply IH.
Qed.

Lemma updated_at_of_put d t i k ti co cr up ti' co' up' :
  find_relation d (lit "notes") = Some (OTable t) →
  notes_table_ok t →
  tbl_rows t !! i = Some [VInt k; ti; co; cr; up] →
  ti' ≠ VNull → co' ≠ VNull →
  updated_at_of
    (put_table (with_rows t (<[i:=[VInt k; ti'; co'; cr; up']]> (tbl_rows t))) d) k
  = Some up'.
Proof.
  intros Hf Hok Hi Hti Hco. unfold updated_at_of.
  erewrite find_relation_put_table; [|exact Hf|done].
  pose proof (notes_table_ok_insert _ _ _ _ _ _ _ _ _ cr up' Hok Hi Hti Hco)
    as (Hc & _ & Hnd).
  rewrite rowids_notes in Hnd by done.
  rewrite (find_note_unique k _ i [VInt k; ti'; co'; cr; up'] Hnd).
  - cbn [mbind option_bind]. rewrite Hc. reflexivity.
  - simpl. apply list_lookup_insert_eq. by eapply lookup_lt_Some.
  - done.
Qed.




(** * Reasoning about computations *)

Section preserves.
Context (R : world → world → Prop).
Context (R_refl : ∀ w, R w w) (R_trans : ∀ w1 w2 w3, R w1 w2 → R w2 w3 → R w1 w3).
#[local] Set Default Proof Using "R_refl R_trans".

Lemma preserves_ret {A} (a : A) : preserves R (ret a).
Proof. intros w. apply R_refl. Qed.

Lemma preserves_raise {A} e : preserves R (raise (A:=A) e).
Proof. intros w. apply R_refl. Qed.

Lemma preserves_bind {A B} (m : M A) (k : A → M B) :
  preserves R m → (∀ a, preserves R (k a)) → preserves R (bind m k).
Proof.
  intros Hm Hk w. unfold bind. specialize (Hm w).
  destruct (m w) as [[a|e] w1]; simpl in *; [|done].
  eapply R_trans; [exact Hm|apply Hk].
Qed.

Lemma preserves_try_except {A} (m : M A) (h : exn → M A) :
  preserves R m → (∀ e, preserves R (h e)) → preserves R (try_except m h).
Proof.
  intros Hm Hh w. unfold try_except. specialize (Hm w).
  destruct (m w) as [[a|e] w1]; simpl in *; [done|].
  eapply R_trans; [exact Hm|apply Hh].
Qed.

Lemma preserves_try_finally {A} (m : M A) (c : M unit) :
  preserves R m → preserves R c → preserves R (try_finally m c).
Proof.
  intros Hm Hc w. unfold try_finally. specialize (Hm w).
  destruct (m w) as [r w1]. specialize (Hc w1).
  destruct (c w1) as [[[]|e] w2]; simpl in *; by eapply R_trans.
Qed.

Lemma preserves_for_each {A} (l : list A) (body : A → M unit) :
  (∀ x, preserves R (body x)) → preserves R (for_each l body).
Proof.
  intros Hb. induction l as [|x l IH]; simpl.
  - apply preserves_ret.
  - apply preserves_bind; [apply Hb|done].
Qed.

Lemma preserves_if {A} (b : bool) (m1 m2 : M A) :
  preserves R m1 → preserves R m2 → preserves R (if b then m1 else m2).
Proof. by destruct b. Qed.
End preserves.

(** * The schema ensurer only adds *)

Lemma table_extends_refl t : table_extends t t.
Proof. split_and!; [done..| |done]. by apply Forall_Forall2_diag, Forall_true. Qed.

Lemma object_extends_refl o : object_extends o o.
Proof. destruct o; simpl; [apply table_extends_refl|done..]. Qed.

Lemma db_extends_refl d : db_extends d d.
Proof.
  exists d, []. split; [by rewrite app_nil_r|].
  apply Forall_Forall2_diag, Forall_forall. intros. apply object_extends_refl.
Qed.

Lemma table_extends_trans t1 t2 t3 :
  table_extends t1 t2 → table_extends t2 t3 → table_extends t1 t3.
Proof.
  intros (Hn & Hc & Hr & Hs) (Hn' & Hc' & Hr' & Hs'). split_and!.
  - congruence.
  - by etrans.
  - eapply Forall2_trans; [|exact Hr|exact Hr']. intros ???. by etrans.
  - congruence.
Qed.

Lemma object_extends_trans o1 o2 o3 :
  object_extends o1 o2 → object_extends o2 o3 → object_extends o1 o3.
Proof.
  destruct o1, o2; simpl; try done; intros H1; destruct o3; simpl; try done;
    try (by intros; subst; simplify_eq).
  by apply table_extends_trans.
Qed.

Lemma db_extends_trans d1 d2 d3 :
  db_extends d1 d2 → db_extends d2 d3 → db_extends d1 d3.
Proof.
  intros (k1 & a1 & -> & H1) (k2 & a2 & -> & H2).
  apply Forall2_app_inv_l in H2 as (k2' & a2' & Hk & _ & ->).
  exists k2', (a2' ++ a2). split; [by rewrite app_assoc|].
  eapply Forall2_trans; [|exact H1|exact Hk].
  apply object_extends_trans.
Qed.

Lemma db_extends_app d added : db_extends d (d ++ added).
Proof.
  exists d, added. split; [done|].
  apply Forall_Forall2_diag, Forall_forall. intros. apply object_extends_refl.
Qed.

Lemma db_extends_put_table d n t t' :
  find_relation d n = Some (OTable t) → table_extends t t' →
  db_extends d (put_table t' d).
Proof.
  intros Hf Hext. exists (put_table t' d), []. split; [by rewrite app_nil_r|].
  pose proof (find_relation_table_name _ _ _ Hf) as Hnm.
  destruct Hext as (Hn & Hrest). unfold find_relation in Hf.
  induction d as [|o d IH]; simpl in *; [done|].
  rewrite Hn, (is_relation_congr _ _ _ Hnm).
  destruct (is_relation n o).
  - injection Hf as ->. constructor; [by split|].
    apply Forall_Forall2_diag, Forall_forall. intros. apply object_extends_refl.
  - constructor; [apply object_extends_refl|by apply IH].
Qed.

(** Every statement other than INSERT and UPDATE is additive. *)
Lemma exec_additive rt wr now s d d' rows :
  is_dml s = false → exec rt wr now s d = Ok (d', rows) → db_extends d d'.
Proof.
  intros Hs. destruct s; try done; simpl.
  - intros [= <- _]. apply db_extends_refl.
  - unfold create_table_if_not_exists.
    destruct (find_relation d (def_name t)); simpl.
    { intros [= <- _]. apply db_extends_refl. }
    destruct (existsb _ d); [done|]. destruct (negb wr); [done|].
    intros [= <- _]. apply db_extends_app.
  - intros [= <- _]. apply db_extends_refl.
  - unfold alter_table_add_column.
    destruct (find_relation d tbl) as [[t| | |]|] eqn:Hf; try done.
    repeat (match goal with |- context [if ?b then _ else _] => destruct b end;
            try done).
    simpl. intros [= <- _]. eapply db_extends_put_table; [exact Hf|].
    split_and!; simpl; [done| |clear|done].
    + by apply prefix_app_r.
    + induction (tbl_rows t) as [|r rs IH]; [constructor|].
      constructor; [by apply prefix_app_r|exact IH].
  - unfold create_trigger_if_not_exists.
    destruct (find_relation d (trg_table t)) as [o|]; [|done].
    destruct (existsb _ d); simpl.
    { intros [= <- _]. apply db_extends_refl. }
    destruct o; try done. destruct (negb wr); [done|]. simpl.
    intros [= <- _]. apply db_extends_app.
  - intros [= <- _]. apply db_extends_refl.
  - intros [= <- _]. apply db_extends_refl.
  - destruct (select_count tbl d); simpl; [|done].
    intros [= <- _]. apply db_extends_refl.
Qed.

Lemma additive_refl w : additive w w.
Proof. split_and!; [done..|apply db_extends_refl|by left]. Qed.

Lemma additive_trans w1 w2 w3 : additive w1 w2 → additive w2 w3 → additive w1 w3.
Proof.
  intros (Hc & Hp & Hd & Hfs) (Hc' & Hp' & Hd' & Hfs'). split_and!.
  - congruence.
  - congruence.
  - by eapply db_extends_trans.
  - intros k. destruct (Hfs' k) as [Hk|(c & d1 & Hconn & -> & Hk & Hext)].
    + rewrite Hk. apply Hfs.
    + right. rewrite Hconn in Hp. simpl in Hp.
      destruct (conn w1) as [c1|] eqn:Hc1; [|done]. injection Hp as Hp.
      exists c1, d1. split_and!; [done..|]. by eapply db_extends_trans.
Qed.

Lemma additive_same_view w w' :
  cwd w' = cwd w → conn w' = conn w → fs w' = fs w → additive w w'.
Proof.
  intros Hc Hn Hf. split_and!; [done|by rewrite Hn| |intros k; left; by rewrite Hf].
  unfold view. rewrite Hn. apply db_extends_refl.
Qed.

Lemma cursor_execute_additive s :
  is_dml s = false → preserves additive (cursor_execute s).
Proof.
  intros Hs w. unfold cursor_execute.
  change (conn (tick w)) with (conn w). change (fault (tick w)) with (fault w).
  change (clock (tick w)) with (clock w).
  destruct (conn w) as [c|] eqn:Hc; [|by apply additive_same_view].
  destruct (conn_closed c) eqn:Hcl; [by apply additive_same_view|].
  destruct (fault w (sql_calls w)); [by apply additive_same_view|].
  assert (∀ on, additive w
            (set_conn (Some {| conn_path := conn_path c; conn_db := conn_db c;
                               conn_in_txn := conn_in_txn c;
                               conn_writable := conn_writable c;
                               conn_notadb := conn_notadb c;
                               conn_foreign_keys := on;
                               conn_recursive_triggers := conn_recursive_triggers c;
                               conn_closed := false |}) (tick w))) as Hpragma.
  { intros on. split_and!; simpl; rewrite ?Hc; [done..| |by left].
    unfold view. simpl. rewrite Hc. apply db_extends_refl. }
  assert (∀ d' rows,
            exec (conn_recursive_triggers c) (conn_writable c)
              (VText (clock w (sql_calls w))) s (conn_db c) = Ok (d', rows) →
            additive w
              (let in_txn := conn_in_txn c || is_dml s in
               let c' := {| conn_path := conn_path c; conn_db := d';
                            conn_in_txn := in_txn;
                            conn_writable := conn_writable c;
                            conn_notadb := false;
                            conn_foreign_keys := conn_foreign_keys c;
                            conn_recursive_triggers := conn_recursive_triggers c;
                            conn_closed := false |} in
               let w' := set_conn (Some c') (tick w) in
               if is_ddl s && negb in_txn
               then set_fs (insert (conn_path c) (File (Database d'))) w'
               else w')) as Hexec.
  { intros d' rows Hx. apply exec_additive in Hx; [|done].
    cbv zeta. destruct (is_ddl s && negb (conn_in_txn c || is_dml s)).
    - split_and!; simpl; rewrite ?Hc; [done..| |].
      + unfold view. simpl. by rewrite Hc.
      + intros k. destruct (decide (k = conn_path c)) as [->|Hne].
        * right. exists c, d'. rewrite lookup_insert_eq. split_and!; [done..|].
          unfold view. by rewrite Hc.
        * left. by rewrite lookup_insert_ne.
    - split_and!; simpl; rewrite ?Hc; [done..| |by left].
      unfold view. simpl. by rewrite Hc. }
  destruct s; try done; try apply Hpragma.
  all: destruct (conn_notadb c); [by apply additive_same_view|].
  all: match goal with
       | |- context [exec ?rt ?wr ?now ?s ?d] =>
           destruct (exec rt wr now s d) as [[d' rows]|e] eqn:Hx;
             [|by apply additive_same_view]
       end.
  all: exact (Hexec _ _ eq_refl).
Qed.

Ltac additive_steps :=
  repeat first
    [ apply (preserves_ret _ additive_refl additive_trans)
    | apply (preserves_bind _ additive_refl additive_trans)
    | apply (preserves_for_each _ additive_refl additive_trans)
    | apply (preserves_if _ additive_refl additive_trans)
    | apply cursor_execute_additive; reflexivity
    | intros [? ?] | intros ? ].

Lemma ensure_table_additive table_name create_sql required_columns :
  is_dml create_sql = false →
  preserves additive
    (_ensure_table_with_required_columns table_name create_sql required_columns).
Proof.
  intros Hs. unfold _ensure_table_with_required_columns, _get_table_columns.
  apply (preserves_bind _ additive_refl additive_trans);
    [by apply cursor_execute_additive|].
  additive_steps.
Qed.

(** C7: whatever the state before, and whether it returns or raises, the
    schema ensurer leaves every object of the database in place: no table
    is dropped, every table keeps its columns, in order, as the first
    columns, every row keeps all its cells (new columns come after them),
    views, indexes and triggers are as they were; and the only file it may
    write is the database file, with a database that extends the one the
    connection saw. *)
Theorem schema_ensurer_is_additive (w : world) :
  additive w (ensure_schema w).2.
Proof.
  revert w. change (preserves additive ensure_schema).
  unfold ensure_schema, _ensure_notes_updated_at_trigger.
  repeat first [ apply ensure_table_additive; reflexivity | additive_steps ].
Qed.

(** * The patterns *)

Section regex.
Import Re.

Lemma last_or_nil prev : last_or prev [] = prev.
Proof. done. Qed.

Lemma last_or_cons prev c l : last_or prev (c :: l) = last_or (Some c) l.
Proof. unfold last_or. rewrite last_cons. by destruct (last l). Qed.

Lemma last_or_snoc prev l c : last_or prev (l ++ [c]) = Some c.
Proof. unfold last_or. by rewrite last_snoc. Qed.

Lemma last_or_app prev a b : last_or prev (a ++ b) = last_or (last_or prev a) b.
Proof.
  revert prev. induction a as [|c a IH]; intros prev; [done|].
  simpl. by rewrite !last_or_cons, IH.
Qed.

(** A successful [a*] stops after some characters of the class. *)
Lemma star_inv a k s : ∀ prev g,
  star a k prev s = Some g →
  ∃ ws s2 prev', s = ws ++ s2
                 ∧ Forall (λ c, atom_match a c = true) ws
                 ∧ k prev' s2 = Some g.
Proof.
  induction s as [|c s IH]; intros prev g; simpl.
  - intros H. by exists [], [], prev.
  - destruct (atom_match a c) eqn:Hc.
    + destruct (star a k (Some c) s) as [g'|] eqn:Hs.
      * intros [= <-]. destruct (IH _ _ Hs) as (ws & s2 & prev' & -> & Hws & Hk).
        exists (c :: ws), s2, prev'. split_and!; [done| |done]. by constructor.
      * intros H. by exists [], (c :: s), prev.
    + intros H. by exists [], (c :: s), prev.
Qed.

(** A literal matches only itself. *)
Lemma match_chars_inv l r : ∀ prev s g g',
  match_here (chars l ++ r) prev s g = Some g' → ∃ s', s = l ++ s'.
Proof.
  induction l as [|c l IH]; intros prev s g g'; simpl.
  - intros _. by exists s.
  - destruct s as [|c' s]; [done|].
    destruct (c =? c')%N eqn:Hc; [|done].
    apply N.eqb_eq in Hc as <-.
    intros (s' & ->)%IH. by exists s'.
Qed.

(** Skipping text in which the pattern matches nowhere. *)
Lemma search_from_skip r pre rest : ∀ prev,
  (∀ a b, pre = a ++ b → b ≠ [] →
          match_here r (last_or prev a) (b ++ rest) [] = None) →
  search_from r prev (pre ++ rest) = search_from r (last_or prev pre) rest.
Proof.
  induction pre as [|c pre IH]; intros prev Hno; [done|].
  rewrite last_or_cons. rewrite <- IH.
  - pose proof (Hno [] (c :: pre) eq_refl ltac:(done)) as H0.
    rewrite last_or_nil in H0.
    change ((c :: pre) ++ rest) with (c :: (pre ++ rest)) in *.
    cbn [search_from]. by rewrite H0.
  - intros a b -> Hb. rewrite <- (last_or_cons prev). by apply (Hno (c :: a) b).
Qed.

(** A line at whose start the pattern fails is skipped, when the pattern
    begins with ^. *)
Lemma search_skip_line r line rest prev :
  10%N ∉ line →
  match_here (Bol :: r) prev (line ++ 10%N :: rest) [] = None →
  search_from (Bol :: r) prev (line ++ 10%N :: rest)
  = search_from (Bol :: r) (Some 10%N) rest.
Proof.
  intros Hline Hstart.
  change (line ++ 10%N :: rest) with (line ++ [10%N] ++ rest).
  rewrite app_assoc, search_from_skip; [by rewrite (last_or_snoc prev)|].
  intros a b Hab Hb. destruct a as [|c a _] using rev_ind.
  - simpl in Hab. subst b. by rewrite <- app_assoc.
  - rewrite last_or_snoc. cbn [match_here].
    destruct (c =? 10)%N eqn:Hc; [|done].
    apply N.eqb_eq in Hc as ->. exfalso.
    (* the character before [b] is in [line] *)
    destruct b as [|x b _] using rev_ind; [done|].
    rewrite !app_assoc in Hab. apply app_inj_tail in Hab as [-> _].
    apply Hline. rewrite elem_of_app, elem_of_app. left. right. by left.
Qed.

Lemma plus_cons a k acc c s :
  plus a k acc (c :: s)
  = if atom_match a c then
      match plus a k (acc ++ [c]) s with
      | Some g => Some g
      | None => k (acc ++ [c]) (Some c) s
      end
    else None.
Proof. done. Qed.

Lemma atom_match_any c : c ≠ 10%N → atom_match AAny c = true.
Proof. intros Hc. unfold atom_match. by apply N.eqb_neq in Hc as ->. Qed.

(** [(.+)$] takes the rest of the line. *)
Lemma plus_any_line line rest : ∀ acc,
  line ≠ [] → 10%N ∉ line →
  plus AAny (λ g' p t, match_here [Eol] p t g') acc (line ++ 10%N :: rest)
  = Some (acc ++ line).
Proof.
  induction line as [|c line IH]; intros acc Hne Hnl; [done|].
  change ((c :: line) ++ 10%N :: rest) with (c :: (line ++ 10%N :: rest)).
  rewrite plus_cons, atom_match_any by set_solver.
  destruct line as [|c' line].
  - done.
  - rewrite IH; [|done|set_solver]. by rewrite <- app_assoc.
Qed.

Lemma plus_any_end line : ∀ acc,
  line ≠ [] → 10%N ∉ line →
  plus AAny (λ g' p t, match_here [Eol] p t g') acc line = Some (acc ++ line).
Proof.
  induction line as [|c line IH]; intros acc Hne Hnl; [done|].
  rewrite plus_cons, atom_match_any by set_solver.
  destruct line as [|c' line].
  - done.
  - rewrite IH; [|done|set_solver]. by rewrite <- app_assoc.
Qed.

End regex.

Section file_path_line.
Import Re.

Lemma match_chars_eq l r : ∀ prev s g,
  match_here (chars l ++ r) prev (l ++ s) g = match_here r (last_or prev l) s g.
Proof.
  induction l as [|c l IH]; intros prev s g; [done|].
  rewrite last_or_cons, <- IH. simpl. by rewrite N.eqb_refl.
Qed.

Lemma star_cons a k prev c s :
  star a k prev (c :: s)
  = if atom_match a c then
      match star a k (Some c) s with
      | Some g => Some g
      | None => k prev (c :: s)
      end
    else k prev (c :: s).
Proof. done. Qed.

(** A greedy [a*] that succeeds after taking all of [ws]. *)
Lemma star_take a k ws : ∀ prev s g,
  Forall (λ c, atom_match a c = true) ws →
  match s with c :: _ => atom_match a c = false | [] => True end →
  k (last_or prev ws) s = Some g →
  star a k prev (ws ++ s) = Some g.
Proof.
  induction ws as [|c ws IH]; intros prev s g Hws Hs Hk.
  - simpl. destruct s as [|c s]; [done|]. by rewrite star_cons, Hs.
  - apply Forall_cons in Hws as [Hc Hws].
    change ((c :: ws) ++ s) with (c :: (ws ++ s)).
    rewrite star_cons, Hc. rewrite last_or_cons in Hk.
    by rewrite (IH _ _ _ Hws Hs Hk).
Qed.

Lemma plus_any_post line post acc :
  line ≠ [] → 10%N ∉ line →
  post = [] ∨ head post = Some 10%N →
  plus AAny (λ g' p t, match_here [Eol] p t g') acc (line ++ post)
  = Some (acc ++ line).
Proof.
  intros Hne Hnl [->|Hp].
  - rewrite app_nil_r. by apply plus_any_end.
  - destruct post as [|c post]; [done|]. injection Hp as ->.
    by apply plus_any_line.
Qed.

Lemma file_path_re_eq :
  file_path_re
  = [Bol; One (AChar 35); Star ASpace]
    ++ chars (lit "File path:") ++ [Star ASpace; GroupPlus AAny; Eol].
Proof. done. Qed.

(** The pattern on the line "# File path: p". *)
Lemma match_file_path_line p post prev :
  prev = None ∨ prev = Some 10%N →
  10%N ∉ p →
  (∃ c, head p = Some c ∧ Str.isspace c = false) →
  post = [] ∨ head post = Some 10%N →
  match_here file_path_re prev (lit "# File path: " ++ p ++ post) [] = Some p.
Proof.
  intros Hprev Hnl (c & Hc & Hsp) Hpost.
  replace (lit "# File path: ")
    with (35%N :: [32%N] ++ lit "File path:" ++ [32%N]) by (by vm_compute).
  rewrite file_path_re_eq.
  cbn [app match_here].
  replace (match prev with
           | Some c0 => if (c0 =? 10)%N then _ else None
           | None => _ end)
    with (match_here (One (AChar 35) :: Star ASpace ::
                      chars (lit "File path:") ++ [Star ASpace; GroupPlus AAny; Eol])
            prev (35%N :: 32%N :: (lit "File path:" ++ [32%N]) ++ p ++ post) [])
    by (by destruct Hprev as [->| ->]).
  cbn [match_here atom_match]. rewrite N.eqb_refl.
  rewrite <- app_assoc.
  apply (star_take ASpace _ [32%N]).
  - by repeat constructor.
  - by vm_compute.
  - rewrite match_chars_eq. cbn [match_here].
    apply (star_take ASpace _ [32%N]).
    + by repeat constructor.
    + destruct p as [|c' p]; [done|]. simpl in Hc. injection Hc as ->. exact Hsp.
    + cbn [match_here]. rewrite plus_any_post; [done| |done..].
      by destruct p.
Qed.

(** No match of the File path pattern starts in text where "File path:"
    does not occur, when what follows begins with "#". *)
Lemma no_file_path_match_before pre rest prev :
  ¬ occurs_in (lit "File path:") pre →
  head rest = Some 35%N →
  ∀ a b, pre = a ++ b → b ≠ [] →
    match_here file_path_re (last_or prev a) (b ++ rest) [] = None.
Proof.
  intros Hno Hrest a b -> Hb.
  destruct (match_here _ _ _ _) as [g|] eqn:Hm; [exfalso|done].
  rewrite file_path_re_eq in Hm. cbn [app match_here] in Hm.
  assert (∃ b', b = 35%N :: b'
            ∧ star ASpace
                (λ p t, match_here (chars (lit "File path:")
                                    ++ [Star ASpace; GroupPlus AAny; Eol]) p t [])
                (Some 35%N) (b' ++ rest) = Some g) as (b' & -> & Hs).
  { destruct b as [|c b']; [done|].
    change ((c :: b') ++ rest) with (c :: (b' ++ rest)) in Hm.
    assert (match_here (One (AChar 35) :: Star ASpace ::
              chars (lit "File path:") ++ [Star ASpace; GroupPlus AAny; Eol])
              (last_or prev a) (c :: b' ++ rest) [] = Some g) as Hm'.
    { destruct (last_or prev a) as [x|]; [|done].
      by destruct (x =? 10)%N. }
    cbn [match_here atom_match] in Hm'.
    destruct (35 =? c)%N eqn:Hc; [|done].
    apply N.eqb_eq in Hc as <-. by exists b'. }
  apply star_inv in Hs as (ws & s2 & prev' & Hsplit & Hws & Hk).
  apply match_chars_inv in Hk as (s' & ->).
  destruct rest as [|x rest0]; [done|]. injection Hrest as ->.
  apply app_eq_inv in Hsplit as [(k & -> & Hk)|(k & -> & Hk)].
  - (* the spaces end inside [b'] *)
    symmetry in Hk. apply app_eq_inv in Hk as [(k2 & -> & Hk2)|(k2 & Hfp & Hk2)].
    + apply Hno. exists (a ++ 35%N :: ws), k2.
      by rewrite <- !app_assoc.
    + destruct k2 as [|y k2].
      * rewrite app_nil_r in Hfp. subst k.
        apply Hno. exists (a ++ 35%N :: ws), []. by rewrite <- !app_assoc, app_nil_r.
      * injection Hk2 as <- _.
        assert (35%N ∈ lit "File path:") as Hin
          by (rewrite Hfp; set_solver).
        assert (35%N ∉ lit "File path:") as Hnotin
          by (refine (@bool_decide_unpack _ _ _); vm_compute; exact I).
        done.
  - (* the spaces reach into [rest] *)
    destruct k as [|y k].
    + simpl in Hk. by vm_compute in Hk.
    + injection Hk as <- _.
      apply Forall_app in Hws as [_ Hws]. apply Forall_cons in Hws as [Hws _].
      by vm_compute in Hws.
Qed.

End file_path_line.

Lemma lstrip_id p c : head p = Some c → Str.isspace c = false → Str.lstrip p = p.
Proof. destruct p as [|c' p]; [done|]. intros [= ->] H. simpl. by rewrite H. Qed.

Lemma strip_id p : fits_on_a_line p → Str.strip p = p.
Proof.
  intros (_ & _ & (c & Hc & Hsc) & (c' & Hl & Hsl)).
  unfold Str.strip, Str.rstrip. rewrite (lstrip_id _ _ Hc Hsc).
  rewrite (lstrip_id (reverse p) c'); [by rewrite reverse_involutive| |done].
  by rewrite head_reverse.
Qed.

(** * The path resolver *)

Ltac by_compute := refine (@bool_decide_unpack _ _ _); vm_compute; exact I.

Lemma parse_file_text w path s :
  fs w !! key w path = Some (File (Text s)) →
  _parse_db_path_from_connection_file path w
  = (Ok (parse_descriptor (Str.universal_newlines s)), w).
Proof.
  intros H. unfold _parse_db_path_from_connection_file, bind, os_path_exists,
    try_except, read_text, ret.
  cbv beta. rewrite !H. rewrite bool_decide_eq_true_2 by done.
  cbn [negb]. cbv beta iota. rewrite H. cbv beta iota.
  unfold parse_descriptor, ret. cbv zeta.
  destruct (Re.search file_path_re _) as [g|].
  - destruct (Str.truthy (Str.strip g)); [done|].
    by destruct (Re.search connection_string_re _) as [g'|].
  - by destruct (Re.search connection_string_re _) as [g'|].
Qed.

Lemma parse_file_absent w path :
  fs w !! key w path = None →
  _parse_db_path_from_connection_file path w = (Ok None, w).
Proof.
  intros H. unfold _parse_db_path_from_connection_file, bind, os_path_exists.
  cbv beta. rewrite H. by rewrite bool_decide_eq_false_2 by by intros [? ?].
Qed.

Lemma resolve_file_text w s :
  fs w !! key w (lit "db_connection.txt") = Some (File (Text s)) →
  _resolve_db_path w
  = (Ok (key w (match parse_descriptor (Str.universal_newlines s) with
                | Some p => if Str.truthy p then p else DB_NAME
                | None => DB_NAME
                end)), w).
Proof.
  intros H. unfold _resolve_db_path, bind. rewrite (parse_file_text _ _ _ H).
  destruct (parse_descriptor _) as [p|]; [|done]. by destruct (Str.truthy p).
Qed.


Lemma universal_newlines_id s : 13%N ∉ s → Str.universal_newlines s = s.
Proof.
  induction s as [|c s IH]; [done|]. intros Hn.
  assert (c ≠ 13%N) as Hc by set_solver. apply N.eqb_neq in Hc.
  simpl. rewrite Hc, IH; [done|set_solver].
Qed.

(** ** Writing the descriptor *)

Lemma open_w_ok path w w' :
  open_w path w = (Ok (), w') →
  w' = emit (EOpenWrite (key w path))
         (set_fs (insert (key w path) (File (Text []))) w).
Proof.
  unfold open_w. destruct (fs w !! key w path) as [[|]|].
  - done.
  - by intros [= <-].
  - destruct (creatable w (key w path)); [done|]. by intros [= <-].
Qed.

Lemma f_write_text path old s w :
  fs w !! key w path = Some (File (Text old)) →
  f_write path s w
  = (Ok (), set_fs (insert (key w path) (File (Text (old ++ s)))) w).
Proof. intros H. unfold f_write. by rewrite H. Qed.

Lemma bind_run {A B} (m : M A) (k : A → M B) w a w' :
  m w = (Ok a, w') → bind m k w = k a w'.
Proof. intros H. unfold bind. by rewrite H. Qed.

Lemma bind_run_raise {A B} (m : M A) (k : A → M B) w e w' :
  m w = (Raise e, w') → bind m k w = (Raise e, w').
Proof. intros H. unfold bind. by rewrite H. Qed.

Lemma f_write_after_insert path old s w k :
  k = key w path →
  f_write path s (set_fs (insert k (File (Text old))) w)
  = (Ok (), set_fs (insert k (File (Text (old ++ s)))) w).
Proof.
  intros ->. unfold f_write.
  change (key (set_fs _ w) path) with (key w path).
  cbn [fs set_fs]. rewrite lookup_insert_eq. unfold set_fs. cbn [fs cwd clock fault sql_calls conn which_sqlite3 log].
  by rewrite insert_insert_eq.
Qed.

Lemma f_write_after_open path s old w k e :
  k = key w path →
  f_write path s (emit e (set_fs (insert k (File (Text old))) w))
  = (Ok (), emit e (set_fs (insert k (File (Text (old ++ s)))) w)).
Proof.
  intros ->. unfold f_write.
  change (key (emit e (set_fs _ w)) path) with (key w path).
  cbn [fs set_fs emit]. rewrite lookup_insert_eq. unfold set_fs, emit.
  cbn [fs cwd clock fault sql_calls conn which_sqlite3 log].
  by rewrite insert_insert_eq.
Qed.

Lemma write_connection_file_ok p cs w w1 :
  write_connection_file p cs w = (Ok (), w1) →
  w1 = emit (EOpenWrite (key w (lit "db_connection.txt")))
         (set_fs (insert (key w (lit "db_connection.txt"))
                    (File (Text ((lit "# SQLite connection methods:" ++ nl)
                      ++ (lit "# Python: sqlite3.connect('" ++ PosixPath.basename p
                          ++ lit "')" ++ nl)
                      ++ (lit "# Connection string: " ++ cs ++ nl)
                      ++ (lit "# File path: " ++ p ++ nl))))) w).
Proof.
  unfold write_connection_file. unfold bind at 1.
  destruct (open_w _ w) as [[[]|e] w0] eqn:Ho; [|done].
  apply open_w_ok in Ho. subst w0.
  erewrite bind_run; [|by apply f_write_after_open].
  erewrite bind_run; [|by apply f_write_after_open].
  erewrite bind_run; [|by apply f_write_after_open].
  rewrite f_write_after_open by done.
  intros H. assert (w1 = snd (Ok (), w1)) as -> by done. rewrite <- H.
  cbn [snd]. by rewrite app_nil_l, <- !app_assoc.
Qed.

Lemma not_elem_of_drop_str (c : N) n (p : str) : c ∉ p → c ∉ drop n p.
Proof. intros H Hin. apply H. by eapply (subseteq_drop n p). Qed.

Lemma search_from_found r prev s g :
  Re.match_here r prev s [] = Some g → Re.search_from r prev s = Some g.
Proof. intros H. destruct s; simpl; by rewrite H. Qed.

Lemma descriptor_text_lines p :
  descriptor_text p
  = lit "# SQLite connection methods:"
    ++ 10%N :: (lit "# Python: sqlite3.connect('" ++ PosixPath.basename p ++ lit "')")
    ++ 10%N :: (lit "# Connection string: " ++ lit "sqlite:///" ++ p)
    ++ 10%N :: (lit "# File path: " ++ p ++ [10%N]).
Proof. unfold descriptor_text, nl. by rewrite <- !app_assoc. Qed.

Lemma search_descriptor_text p :
  10%N ∉ p →
  (∃ c, head p = Some c ∧ Str.isspace c = false) →
  Re.search file_path_re (descriptor_text p) = Some p.
Proof.
  intros Hnl Hhead. rewrite descriptor_text_lines. unfold Re.search.
  assert (10%N ∉ PosixPath.basename p) as Hb by by apply not_elem_of_drop_str.
  set (r := tail file_path_re).
  change file_path_re with (Re.Bol :: r).
  rewrite search_skip_line; [|by_compute|by vm_compute].
  rewrite search_skip_line; [| |by vm_compute].
  2:{ rewrite !not_elem_of_app. split_and!; [by_compute|done|by_compute]. }
  rewrite search_skip_line; [| |by vm_compute].
  2:{ rewrite !not_elem_of_app. split_and!; [by_compute..|done]. }
  change (Re.Bol :: r) with file_path_re.
  apply search_from_found. apply match_file_path_line; auto.
Qed.

(** ** Path precedence (C5) *)




(** ** The descriptor round trip (C6) *)

(** C6 as stated fails for the absolute path "/tmp/x " (with a blank at the
    end): the resolver strips the blank and returns "/tmp/x". *)
Lemma round_trip_loses_a_trailing_blank :
  ¬ descriptor_round_trip (demo_world []) (lit "/tmp/x ").
Proof.
  intros H.
  opose proof (H (write_connection_file (lit "/tmp/x ")
                    (lit "sqlite:///" ++ lit "/tmp/x ") (demo_world [])).2 _) as H'.
  - vm_compute. reflexivity.
  - vm_compute in H'. discriminate.
Qed.

Lemma not_elem_of_descriptor_text (c : N) p :
  c ∉ p →
  c ∉ lit "# SQLite connection methods:# Python: sqlite3.connect('')# Connection string: sqlite:///# File path: " →
  c ≠ 10%N →
  c ∉ descriptor_text p.
Proof.
  intros Hp Hl Hc. unfold descriptor_text, nl.
  assert (c ∉ PosixPath.basename p) as Hb by by apply not_elem_of_drop_str.
  revert Hl.
  replace (lit "# SQLite connection methods:# Python: sqlite3.connect('')# Connection string: sqlite:///# File path: ")
    with (lit "# SQLite connection methods:" ++ lit "# Python: sqlite3.connect('"
          ++ lit "')" ++ lit "# Connection string: " ++ lit "sqlite:///"
          ++ lit "# File path: ") by (by vm_compute).
  rewrite !not_elem_of_app. intros (H1 & H2 & H3 & H4 & H5 & H6).
  assert (c ∉ [10%N]) as Hn
    by (apply not_elem_of_cons; split; [done|apply not_elem_of_nil]).
  by split_and!.
Qed.

(** C6, amended: for every absolute, normalised path that has no line
    break in it and no white space at its end, writing the descriptor
    file for it as main does and then resolving gives the path back. *)
Theorem descriptor_round_trip_on_one_line (w : world) (p : str) :
  PosixPath.isabs p = true →
  PosixPath.normpath p = p →
  fits_on_a_line p →
  descriptor_round_trip w p
  ∧ ∀ w1, write_connection_file p (lit "sqlite:///" ++ p) w = (Ok (), w1) →
          _resolve_db_path w1 = (Ok p, w1).
Proof.
  intros Habs Hnorm Hfit.
  assert (∀ w1, write_connection_file p (lit "sqlite:///" ++ p) w = (Ok (), w1) →
                _resolve_db_path w1 = (Ok p, w1)) as Hmain.
  { intros w1 Hw. apply write_connection_file_ok in Hw.
    fold (descriptor_text p) in Hw. subst w1.
    erewrite resolve_file_text.
    2:{ change (key (emit _ (set_fs _ w)) ?x) with (key w x).
        cbn [fs emit set_fs]. apply lookup_insert_eq. }
    destruct Hfit as (Hnl & Hcr & Hhead & Hlast).
    rewrite universal_newlines_id.
    2:{ apply not_elem_of_descriptor_text; [done| |done].
        refine (@bool_decide_unpack _ _ _); vm_compute; exact I. }
    unfold parse_descriptor. rewrite search_descriptor_text by done.
    assert (Str.truthy p = true) as Htruthy
      by (destruct Hhead as (c & Hc & _); by destruct p).
    cbv beta iota zeta. rewrite strip_id, Htruthy by done.
    cbv beta iota zeta. rewrite Htruthy.
    match goal with |- context [key ?W p] => replace (key W p) with p end;
      [done|].
    unfold key, PosixPath.abspath. by rewrite Habs. }
  split; [|done]. intros w1 Hw. by rewrite (Hmain _ Hw).
Qed.

Lemma descriptor_round_trip_on_one_line_witness :
  descriptor_round_trip (demo_world []) (lit "/tmp/x.db")
  ∧ ∀ w1, write_connection_file (lit "/tmp/x.db")
            (lit "sqlite:///" ++ lit "/tmp/x.db") (demo_world []) = (Ok (), w1) →
          _resolve_db_path w1 = (Ok (lit "/tmp/x.db"), w1).
Proof.
  apply (descriptor_round_trip_on_one_line (demo_world []) (lit "/tmp/x.db")).
  - reflexivity.
  - vm_compute. reflexivity.
  - split_and!.
    + refine (@bool_decide_unpack _ _ _); vm_compute; exact I.
    + refine (@bool_decide_unpack _ _ _); vm_compute; exact I.
    + exists 47%N. split; reflexivity.
    + exists 98%N. split; reflexivity.
Defined.

(** * The control flow of main *)

Lemma bind_assoc {A B C} (m : M A) (k : A → M B) (k' : B → M C) w :
  bind (bind m k) k' w = bind m (λ a, bind (k a) k') w.
Proof. unfold bind. by destruct (m w) as [[a|e] w']. Qed.

Lemma bind_ext {A B} (m : M A) (k1 k2 : A → M B) w :
  (∀ a w', k1 a w' = k2 a w') → bind m k1 w = bind m k2 w.
Proof. intros H. unfold bind. destruct (m w) as [[a|e] w']; [apply H|done]. Qed.

Lemma ret_bind {A B} (a : A) (k : A → M B) w : bind (ret a) k w = k a w.
Proof. done. Qed.

Lemma main_stages w :
  main w = (db_path <- before_database_phase ;;
            stats <- guarded_database_phase db_path ;;
            after_database_phase db_path stats) w.
Proof.
  unfold main, before_database_phase.
  repeat (rewrite bind_assoc; apply bind_ext; intros).
  rewrite ret_bind. unfold guarded_database_phase.
  apply bind_ext. intros [tc rc] w1.
  unfold after_database_phase, report. reflexivity.
Qed.

(** ** The connection *)

Lemma keeps_live_refl w : keeps_live w w.
Proof. by intros ?. Qed.

Lemma keeps_live_trans w1 w2 w3 :
  keeps_live w1 w2 → keeps_live w2 w3 → keeps_live w1 w3.
Proof. unfold keeps_live. tauto. Qed.

Lemma cursor_execute_keeps_live s : preserves keeps_live (cursor_execute s).
Proof.
  intros w (c & Hc & Hcl). unfold cursor_execute.
  change (conn (tick w)) with (conn w). rewrite Hc, Hcl.
  destruct (fault _ _); [by exists c|].
  destruct s; try (by eexists);
    (destruct (conn_notadb c); [by exists c|]);
    match goal with
    | |- context [exec ?a ?b ?c ?d ?e] => destruct (exec a b c d e) as [[d' rows]|e']
    end; try (by exists c);
    match goal with
    | |- context [if ?b then _ else _] => destruct b
    end; by eexists.
Qed.

Lemma conn_commit_keeps_live : preserves keeps_live conn_commit.
Proof.
  intros w (c & Hc & Hcl). unfold conn_commit.
  change (conn (tick w)) with (conn w). rewrite Hc, Hcl.
  destruct (fault _ _); [by exists c|].
  destruct (conn_in_txn c); [by eexists|by exists c].
Qed.

Lemma fetchone_0_keeps_live rows : preserves keeps_live (fetchone_0 rows).
Proof. intros w. destruct rows as [|[|??]?]; exact (keeps_live_refl w). Qed.

Ltac keeps_live_steps :=
  repeat first
    [ apply (preserves_ret _ keeps_live_refl keeps_live_trans)
    | apply (preserves_bind _ keeps_live_refl keeps_live_trans)
    | apply (preserves_for_each _ keeps_live_refl keeps_live_trans)
    | apply (preserves_if _ keeps_live_refl keeps_live_trans)
    | apply cursor_execute_keeps_live
    | apply conn_commit_keeps_live
    | apply fetchone_0_keeps_live
    | intros [? ?] | intros ? ].

Lemma after_connect_keeps_live :
  preserves keeps_live
    (cursor_execute (PragmaForeignKeys true) ;;
     ensure_schema ;;
     seed_app_info [] ;;
     conn_commit ;;
     rows <- cursor_execute SelectCountUserTables ;;
     table_count <- fetchone_0 rows ;;
     rows <- cursor_execute (SelectCount (lit "app_info")) ;;
     record_count <- fetchone_0 rows ;;
     ret (table_count, record_count)).
Proof.
  unfold ensure_schema, seed_app_info, _ensure_table_with_required_columns,
    _ensure_notes_updated_at_trigger, _get_table_columns.
  keeps_live_steps.
Qed.

Lemma sqlite3_connect_live p w w' :
  sqlite3_connect p w = (Ok (), w') → conn_live w'.
Proof.
  unfold sqlite3_connect. destruct (fault _ _); [done|].
  destruct (fs (tick w) !! _) as [[|[[|??]|]]|];
    try done; try (intros H; assert (w' = snd (Ok (), w')) as -> by done;
                   rewrite <- H; by eexists).
  destruct (match fs (tick w) !! _ with Some (Dir true) => true | _ => false end);
    [|done].
  intros H; assert (w' = snd (Ok (), w')) as -> by done. rewrite <- H. by eexists.
Qed.

Lemma bind_inv_ok {A B} (m : M A) (k : A → M B) w b w' :
  bind m k w = (Ok b, w') → ∃ a w1, m w = (Ok a, w1) ∧ k a w1 = (Ok b, w').
Proof. unfold bind. destruct (m w) as [[a|e] w1]; [by eauto|done]. Qed.

Lemma preserves_run {A} (R : world → world → Prop) (m : M A) w r w' :
  preserves R m → m w = (r, w') → R w w'.
Proof. intros H E. specialize (H w). by rewrite E in H. Qed.

(** When the body of the try statement returns, the connection is open. *)
Lemma database_phase_live p w stats w' :
  database_phase p w = (Ok stats, w') → conn_live w'.
Proof.
  unfold database_phase. intros ([] & w1 & Hc & Hrest)%bind_inv_ok.
  apply sqlite3_connect_live in Hc.
  by apply (preserves_run _ _ _ _ _ after_connect_keeps_live Hrest).
Qed.

Lemma close_conn_if_bound_run w :
  close_conn_if_bound w = (Ok (), after_cleanup w).
Proof. unfold after_cleanup, close_conn_if_bound. by destruct (conn w). Qed.

Lemma no_open_connection_after_cleanup w : no_open_connection (after_cleanup w).
Proof.
  unfold no_open_connection, after_cleanup, close_conn_if_bound.
  destruct (conn w) as [c|] eqn:Hc; simpl; [done|by rewrite Hc].
Qed.

(** C9: once the steps before the try statement are through, whatever the
    body of the try statement does, the cleanup runs.  If the body returns,
    the connection it opened is open at that point, the cleanup closes it,
    and what follows in main (the exporter) starts in a world without an
    open connection.  If the body raises, whichever call raised, main
    prints the message, closes the connection if one is bound, and raises
    the same exception: the process ends with status 1 and nothing else has
    been done. *)
Theorem connection_closed_on_every_path (w w0 : world) (db_path : str) :
  before_database_phase w = (Ok db_path, w0) →
  match database_phase db_path w0 with
  | (Ok stats, w1) =>
      conn_live w1
      ∧ no_open_connection (after_cleanup w1)
      ∧ main w = after_database_phase db_path stats (after_cleanup w1)
  | (Raise e, w1) =>
      let w2 := after_cleanup
                  (emit (EPrint (lit "Database setup failed: " ++ exn_msg e)) w1) in
      no_open_connection w2
      ∧ main w = (Raise e, w2)
      ∧ exit_status (main w).1 = 1%Z
  end.
Proof.
  intros Hbefore.
  rewrite main_stages. rewrite (bind_run _ _ _ _ _ Hbefore).
  unfold guarded_database_phase, bind, try_finally, try_except.
  destruct (database_phase db_path w0) as [[stats|e] w1] eqn:Hdb.
  - rewrite close_conn_if_bound_run. split_and!; [|by apply no_open_connection_after_cleanup|done].
    by eapply database_phase_live.
  - unfold print, raise. rewrite close_conn_if_bound_run.
    split_and!; [by apply no_open_connection_after_cleanup|done..].
Qed.

(** A run in an empty working directory. *)
Lemma connection_closed_on_every_path_witness :
  let w := demo_world [] in
  let w0 := (before_database_phase w).2 in
  match database_phase (lit "/work/myapp.db") w0 with
  | (Ok stats, w1) =>
      conn_live w1
      ∧ no_open_connection (after_cleanup w1)
      ∧ main w = after_database_phase (lit "/work/myapp.db") stats (after_cleanup w1)
  | (Raise e, w1) =>
      let w2 := after_cleanup
                  (emit (EPrint (lit "Database setup failed: " ++ exn_msg e)) w1) in
      no_open_connection w2
      ∧ main w = (Raise e, w2)
      ∧ exit_status (main w).1 = 1%Z
  end.
Proof.
  intros w w0.
  apply (connection_closed_on_every_path w w0 (lit "/work/myapp.db")).
  vm_compute. reflexivity.
Defined.

(** ** The helper files (C8) *)

(** C8 fails on the code: os.makedirs("db_visualizer") is not inside a try
    statement.  In a working directory that cannot be written, with a
    descriptor that names a database elsewhere, the database phase succeeds,
    db_connection.txt is rewritten, and then the failure to create
    db_visualizer leaves main as an exception: status 1, no warning. *)
Theorem visualizer_directory_failure_aborts_the_run :
  let r := main readonly_cwd_world in
  r.1 = Raise (Exn PermissionError (lit "Permission denied"))
  ∧ exit_status r.1 = 1%Z
  ∧ is_Some (fs r.2 !! lit "/data/x.db")
  ∧ last (log r.2)
    = Some (EPrint (lit "Connection information saved to db_connection.txt")).
Proof. vm_compute. split_and!; (reflexivity || by eexists). Qed.

(** * The seed step *)















(** ** Seed upsert (C4) *)



(** * A run in a fresh working directory (C2) *)


(** * Two runs in succession *)

(** Two runs are not always as one: when db_connection.txt names
    db_visualizer/sqlite.env as the database, the first run returns, but
    after its commit it writes the environment file over the database; the
    second run finds a file that is not a database and raises. *)
Lemma second_run_fails_on_clobbered_database :
  (main clobbering_world).1 = Ok ()
  ∧ (main (main clobbering_world).2).1
    = Raise (Exn DatabaseError (lit "file is not a database"))
  ∧ ¬ two_runs_as_one clobbering_world (lit "/work/db_visualizer/sqlite.env").
Proof.
  split_and!.
  - vm_compute. reflexivity.
  - vm_compute. reflexivity.
  - intros (H & _). vm_compute in H. discriminate.
Qed.

(** * Paths in normal form *)

Section normal_form.
Import PosixPath.























End normal_form.

(** ** Directories that exist *)



(** ** Names under the working directory *)

Section under_cwd.
Import PosixPath.



End under_cwd.




(** * Computations that return *)

Section returns.
Context (R : world → world → Prop).
Context (R_refl : ∀ w, R w w) (R_trans : ∀ w1 w2 w3, R w1 w2 → R w2 w3 → R w1 w3).
#[local] Set Default Proof Using "R_refl R_trans".

Lemma returns_ret {A} (a : A) : returns R (ret a).
Proof. intros w. exists a. split; [done|apply R_refl]. Qed.

Lemma returns_bind {A B} (m : M A) (k : A → M B) :
  returns R m → (∀ a, returns R (k a)) → returns R (bind m k).
Proof.
  intros Hm Hk w. destruct (Hm w) as (a & Ha & HR). unfold bind.
  destruct (m w) as [r w1]. cbn [fst snd] in *. subst r.
  destruct (Hk a w1) as (b & Hb & HR'). exists b. split; [done|].
  by eapply R_trans.
Qed.

Lemma returns_try_except {A} (m : M A) (h : exn → M A) :
  preserves R m → (∀ e, returns R (h e)) → returns R (try_except m h).
Proof.
  intros Hm Hh w. unfold try_except. specialize (Hm w).
  destruct (m w) as [[a|e] w1]; cbn [fst snd] in *.
  - by exists a.
  - destruct (Hh e w1) as (b & Hb & HR'). exists b. split; [done|].
    by eapply R_trans.
Qed.

Lemma returns_preserves {A} (m : M A) : returns R m → preserves R m.
Proof. intros Hm w. by destruct (Hm w) as (a & _ & HR). Qed.

Lemma returns_if {A} (b : bool) (m1 m2 : M A) :
  returns R m1 → returns R m2 → returns R (if b then m1 else m2).
Proof. by destruct b. Qed.
End returns.

Lemma returns_run {A} R (m : M A) w :
  returns R m → ∃ a w', m w = (Ok a, w') ∧ R w w'.
Proof.
  intros Hm. destruct (Hm w) as (a & Ha & HR). exists a, (m w).2.
  split; [|done]. destruct (m w) as [r w1]. cbn [fst snd] in *. by subst r.
Qed.

(** ** What stays *)

Lemma same_files_refl w : same_files w w.
Proof. by split_and!. Qed.

Lemma same_files_trans w1 w2 w3 :
  same_files w1 w2 → same_files w2 w3 → same_files w1 w3.
Proof. intros (? & ? & ?) (? & ? & ?). split_and!; congruence. Qed.

Lemma only_file_refl path w : only_file path w w.
Proof. by split_and!. Qed.

Lemma only_file_trans path w1 w2 w3 :
  only_file path w1 w2 → only_file path w2 w3 → only_file path w1 w3.
Proof.
  unfold only_file, only_at, key.
  intros (Hc & Hf & Ho & Hk & Hd) (Hc' & Hf' & Ho' & Hk' & Hd'). rewrite Hc in *.
  split_and!; [congruence|congruence| |tauto|].
  - intros k' Hne. rewrite Ho' by done. by apply Ho.
  - intros b Hb. by apply Hd', Hd.
Qed.

Lemma same_files_only_file path w w' : same_files w w' → only_file path w w'.
Proof. intros (? & ? & Hfs). split_and!; [done|done|..]; by rewrite Hfs. Qed.

Lemma returns_print R l :
  (∀ w w', same_files w w' → R w w') → returns R (print l).
Proof. intros HR w. exists (). split; [done|]. apply HR. by split_and!. Qed.

(** ** The exporter *)

Lemma open_w_only_file path : preserves (only_file path) (open_w path).
Proof.
  intros w. unfold open_w. cbv zeta.
  destruct (fs w !! key w path) as [[|]|] eqn:E; cbn [snd].
  - apply only_file_refl.
  - split_and!; [done|done| | |].
    + intros k' Hne. cbn [fs emit set_fs]. by rewrite lookup_insert_ne.
    + intros _. cbn [fs emit set_fs]. rewrite lookup_insert_eq. by eexists.
    + intros b. unfold only_file, key in *. by rewrite E.
  - destruct (creatable w (key w path)); cbn [snd]; [apply only_file_refl|].
    split_and!; [done|done| | |].
    + intros k' Hne. cbn [fs emit set_fs]. by rewrite lookup_insert_ne.
    + intros _. cbn [fs emit set_fs]. rewrite lookup_insert_eq. by eexists.
    + intros b. unfold only_file, key in *. by rewrite E.
Qed.

Lemma f_write_only_file path s : preserves (only_file path) (f_write path s).
Proof.
  intros w. unfold f_write. cbv zeta.
  destruct (fs w !! key w path) as [[|[old|]]|] eqn:E; cbn [snd];
    try apply only_file_refl.
  split_and!; [done|done| | |].
  - intros k' Hne. cbn [fs set_fs]. by rewrite lookup_insert_ne.
  - intros _. cbn [fs set_fs]. rewrite lookup_insert_eq. by eexists.
  - intros b. unfold only_file, key in *. by rewrite E.
Qed.

Lemma print_only_file path l : preserves (only_file path) (print l).
Proof. intros w. by split_and!. Qed.

Lemma write_connection_file_only_file p cs :
  preserves (only_file (lit "db_connection.txt")) (write_connection_file p cs).
Proof.
  unfold write_connection_file.
  repeat (apply (preserves_bind _ (only_file_refl _) (only_file_trans _));
          [|intros _]);
    first [apply open_w_only_file | apply f_write_only_file].
Qed.

Lemma write_env_file_only_file p :
  preserves (only_file (lit "db_visualizer/sqlite.env")) (write_env_file p).
Proof.
  unfold write_env_file.
  repeat (apply (preserves_bind _ (only_file_refl _) (only_file_trans _));
          [|intros _]);
    first [apply open_w_only_file | apply f_write_only_file].
Qed.

Lemma report_returns p stats : returns same_files (report p stats).
Proof.
  unfold report. destruct stats as [table_count record_count]. cbv zeta.
  repeat (apply (returns_bind _ same_files_refl same_files_trans); [|intros _]);
    try (by apply returns_print).
  apply (returns_try_except _ same_files_refl same_files_trans).
  - intros w. unfold bind, subprocess_run_which_sqlite3.
    destruct (which_sqlite3 w) as [rc|]; cbn [snd]; [|apply same_files_refl].
    destruct (bool_decide (rc = 0%Z)); by split_and!.
  - intros _. apply (returns_ret _ same_files_refl same_files_trans).
Qed.

Lemma write_connection_file_existing p w x :
  fs w !! key w (lit "db_connection.txt") = Some (File x) →
  write_connection_file p (lit "sqlite:///" ++ p) w
  = (Ok (), emit (EOpenWrite (key w (lit "db_connection.txt")))
              (set_fs (insert (key w (lit "db_connection.txt"))
                         (File (Text (descriptor_text p)))) w)).
Proof.
  intros H. unfold write_connection_file.
  assert (open_w (lit "db_connection.txt") w
          = (Ok (), emit (EOpenWrite (key w (lit "db_connection.txt")))
                      (set_fs (insert (key w (lit "db_connection.txt"))
                                 (File (Text []))) w))) as Ho
    by (unfold open_w; by rewrite H).
  rewrite (bind_run _ _ _ _ _ Ho).
  erewrite bind_run; [|by apply f_write_after_open].
  erewrite bind_run; [|by apply f_write_after_open].
  erewrite bind_run; [|by apply f_write_after_open].
  rewrite f_write_after_open by done.
  unfold descriptor_text. by rewrite app_nil_l, <- !app_assoc.
Qed.

(** After the try statement main returns, once db_visualizer exists; it
    writes nothing but the two helper files, removes nothing and leaves
    every directory as it is; and it renews db_connection.txt when that is
    a file. *)
Lemma after_database_phase_returns p stats w :
  is_Some (fs w !! key w (lit "db_visualizer")) →
  ∃ w', after_database_phase p stats w = (Ok (), w')
      ∧ cwd w' = cwd w ∧ fault w' = fault w
      ∧ (∀ k, k ≠ key w (lit "db_connection.txt") →
              k ≠ key w (lit "db_visualizer/sqlite.env") →
              fs w' !! k = fs w !! k)
      ∧ (∀ k, is_Some (fs w !! k) → is_Some (fs w' !! k))
      ∧ (∀ k b, fs w !! k = Some (Dir b) → fs w' !! k = Some (Dir b))
      ∧ (∀ x, fs w !! key w (lit "db_connection.txt") = Some (File x) →
              key w (lit "db_connection.txt")
              ≠ key w (lit "db_visualizer/sqlite.env") →
              fs w' !! key w (lit "db_connection.txt")
              = Some (File (Text (descriptor_text p)))).
Proof.
  intros Hdv. unfold after_database_phase. cbv zeta.
  opose proof (returns_run (only_file (lit "db_connection.txt")) _ w _)
    as (a1 & w1 & Hrun1 & (Hc1 & Hf1 & Ho1 & Hk1 & Hd1)).
  2: rewrite (bind_run _ _ _ _ _ Hrun1).
  { apply (returns_try_except _ (only_file_refl _) (only_file_trans _)).
    - apply (preserves_bind _ (only_file_refl _) (only_file_trans _));
        [apply write_connection_file_only_file|intros _; apply print_only_file].
    - intros e. apply returns_print, same_files_only_file. }
  assert (∀ k, is_Some (fs w !! k) → is_Some (fs w1 !! k)) as Hsome1.
  { intros k Hk.
    destruct (decide (k = key w (lit "db_connection.txt"))) as [->|Hne];
      [by apply Hk1|by rewrite Ho1]. }
  assert (∀ k b, fs w !! k = Some (Dir b) → fs w1 !! k = Some (Dir b)) as Hdir1.
  { intros k b Hk.
    destruct (decide (k = key w (lit "db_connection.txt"))) as [->|Hne];
      [by apply Hd1|by rewrite Ho1]. }
  assert (∀ q, key w1 q = key w q) as Hkey1
    by (intros q; unfold key; by rewrite Hc1).
  assert (is_Some (fs w1 !! key w1 (lit "db_visualizer"))) as Hdv1
    by (rewrite Hkey1; by apply Hsome1).
  unfold bind at 1. unfold os_path_exists at 1. cbv beta iota.
  rewrite (bool_decide_eq_true_2 _ Hdv1). cbn [negb].
  unfold bind at 1. unfold ret at 1. cbv beta iota.
  opose proof (returns_run (only_file (lit "db_visualizer/sqlite.env")) _ w1 _)
    as (a2 & w2 & Hrun2 & (Hc2 & Hf2 & Ho2 & Hk2 & Hd2)).
  2: rewrite (bind_run _ _ _ _ _ Hrun2).
  { apply (returns_try_except _ (only_file_refl _) (only_file_trans _)).
    - apply (preserves_bind _ (only_file_refl _) (only_file_trans _));
        [apply write_env_file_only_file|intros _; apply print_only_file].
    - intros e. apply returns_print, same_files_only_file. }
  rewrite Hkey1 in Ho2, Hk2, Hd2.
  destruct (returns_run _ _ w2 (report_returns p stats))
    as ([] & w3 & Hrun3 & (Hc3 & Hf3 & Hfs3)).
  exists w3. split; [done|]. rewrite Hfs3.
  split_and!; [congruence|congruence|..].
  - intros k Hk Hk'. by rewrite Ho2, Ho1.
  - intros k Hk%Hsome1.
    destruct (decide (k = key w (lit "db_visualizer/sqlite.env"))) as [->|Hne];
      [by apply Hk2|by rewrite Ho2].
  - intros k b Hk%Hdir1.
    destruct (decide (k = key w (lit "db_visualizer/sqlite.env"))) as [->|Hne];
      [by apply Hd2|by rewrite Ho2].
  - intros x Hx Hne. rewrite Ho2 by done.
    revert Hrun1. unfold try_except.
    rewrite (bind_run _ _ _ _ _ (write_connection_file_existing p w x Hx)).
    unfold print. intros H. destruct a1.
    assert (w1 = snd (Ok (), w1)) as -> by done. rewrite <- H.
    cbn [snd fs emit set_fs]. by rewrite lookup_insert_eq.
Qed.

(** * The database phase on a database that is in place *)


(** A statement that changes nothing in the database. *)
Lemma cursor_execute_unchanged s rows p d txn w :
  session p d txn w →
  (∀ rt now, exec rt true now s d = Ok (d, rows)) →
  is_dml s = false →
  (txn = false → is_ddl s = true → fs w !! p = Some (File (Database d))) →
  ∃ w', cursor_execute s w = (Ok rows, w')
      ∧ same_files w w' ∧ session p d txn w'.
Proof.
  intros (Hfault & c & Hc & Hp & Hd & Htxn & Hwr & Hdb & Hopen) Hexec Hdml Hfs.
  unfold cursor_execute. cbv zeta. cbn [tick conn fault clock].
  rewrite Hc, Hopen, Hfault, Hdb, Hwr, Hd, Htxn, Hdml, Hp.
  destruct s; try discriminate Hdml.
  all: try (rewrite Hexec; rewrite orb_false_r;
            destruct txn; cbn [is_ddl andb negb];
            (eexists; split; [reflexivity|]; split;
             [split_and!; try done; cbn [fs set_fs set_conn tick];
              try (by rewrite insert_id by (by apply Hfs))
             |split; [done|]; eexists; cbn [conn set_conn set_fs tick];
              by split_and!])).
  assert (rows = []) as ->
    by (specialize (Hexec false VNull); cbn [exec] in Hexec; congruence).
  eexists; split; [reflexivity|]; split; [by split_and!|].
  split; [done|]. eexists. cbn [conn set_conn tick]. by split_and!.
Qed.

(** ** The schema ensurer finds nothing to do *)







(** * Seeding again *)









(** ** What depends on the schema only *)





(** * A run on the state a run has left *)







Lemma after_cleanup_same_files w : same_files w (after_cleanup w).
Proof.
  unfold after_cleanup, close_conn_if_bound.
  destruct (conn w); by split_and!.
Qed.

Lemma guarded_database_phase_run p w stats w' :
  database_phase p w = (Ok stats, w') →
  guarded_database_phase p w = (Ok stats, after_cleanup w').
Proof.
  intros H. unfold guarded_database_phase, try_finally, try_except.
  by rewrite H, close_conn_if_bound_run.
Qed.





(** * More on the path resolver *)

Lemma parse_file_directory w path b :
  fs w !! key w path = Some (Dir b) →
  _parse_db_path_from_connection_file path w = (Ok None, w).
Proof.
  intros H. unfold _parse_db_path_from_connection_file, bind, os_path_exists,
    try_except, read_text, ret.
  cbv beta. rewrite !H. rewrite bool_decide_eq_true_2 by done.
  cbn [negb]. cbv beta iota. by rewrite H.
Qed.

Lemma parse_file_database w path d :
  fs w !! key w path = Some (File (Database d)) →
  _parse_db_path_from_connection_file path w = (Ok None, w).
Proof.
  intros H. unfold _parse_db_path_from_connection_file, bind, os_path_exists,
    try_except, read_text, ret.
  cbv beta. rewrite !H. rewrite bool_decide_eq_true_2 by done.
  cbn [negb]. cbv beta iota. rewrite H. cbv beta iota.
  destruct d; [|done]. cbv beta iota.
  replace (Re.search file_path_re []) with (@None str) by (by vm_compute).
  by replace (Re.search connection_string_re []) with (@None str)
    by (by vm_compute).
Qed.

(** The resolver never raises and changes nothing: whatever
    db_connection.txt is, a path comes back and the world is as it was. *)
Theorem resolver_never_raises (w : world) :
  ∃ p, _resolve_db_path w = (Ok p, w).
Proof.
  unfold _resolve_db_path.
  destruct (fs w !! key w (lit "db_connection.txt")) as [[b|[s|d]]|] eqn:E.
  - rewrite (bind_run _ _ _ _ _ (parse_file_directory _ _ _ E)). by eexists.
  - rewrite (bind_run _ _ _ _ _ (parse_file_text _ _ _ E)).
    destruct (parse_descriptor _) as [q|]; [|by eexists].
    destruct (Str.truthy q); by eexists.
  - rewrite (bind_run _ _ _ _ _ (parse_file_database _ _ _ E)). by eexists.
  - rewrite (bind_run _ _ _ _ _ (parse_file_absent _ _ E)). by eexists.
Qed.

(** When db_connection.txt is missing, is a directory or is not text, the
    resolver returns the default name made absolute. *)
Theorem resolver_defaults_when_unreadable (w : world) :
  (∀ s, fs w !! key w (lit "db_connection.txt") ≠ Some (File (Text s))) →
  _resolve_db_path w = (Ok (PosixPath.abspath (cwd w) DB_NAME), w).
Proof.
  intros H. unfold _resolve_db_path.
  destruct (fs w !! key w (lit "db_connection.txt")) as [[b|[s|d]]|] eqn:E.
  - by rewrite (bind_run _ _ _ _ _ (parse_file_directory _ _ _ E)).
  - by destruct (H s).
  - by rewrite (bind_run _ _ _ _ _ (parse_file_database _ _ _ E)).
  - by rewrite (bind_run _ _ _ _ _ (parse_file_absent _ _ E)).
Qed.

(** db_connection.txt is a directory. *)
Lemma resolver_defaults_when_unreadable_witness :
  let w := demo_world [(lit "/work/db_connection.txt", Dir true)] in
  _resolve_db_path w = (Ok (PosixPath.abspath (cwd w) DB_NAME), w).
Proof.
  intros w. apply (resolver_defaults_when_unreadable w).
  intros s. vm_compute. discriminate.
Defined.

(** The first line "# File path: q" of db_connection.txt decides: the
    resolver returns [q] made absolute against the working directory. *)
Theorem resolver_first_file_path_line (w : world) (s pre q post : str) :
  fs w !! key w (lit "db_connection.txt") = Some (File (Text s)) →
  Str.universal_newlines s = pre ++ lit "# File path: " ++ q ++ post →
  pre = [] ∨ last pre = Some 10%N →
  post = [] ∨ head post = Some 10%N →
  ¬ occurs_in (lit "File path:") pre →
  fits_on_a_line q →
  _resolve_db_path w = (Ok (PosixPath.abspath (cwd w) q), w).
Proof.
  intros Hfs Htext Hpre Hpost Hno Hfit.
  pose proof Hfit as (Hnl & Hcr & Hhead & Hlast).
  rewrite (resolve_file_text _ _ Hfs), Htext.
  assert (Re.search file_path_re (pre ++ lit "# File path: " ++ q ++ post)
          = Some q) as Hs.
  { unfold Re.search. rewrite search_from_skip.
    2:{ apply no_file_path_match_before; [done|].
        replace (lit "# File path: ")
          with (35%N :: tail (lit "# File path: ")) by (by vm_compute).
        done. }
    apply search_from_found. apply match_file_path_line; try done.
    destruct Hpre as [->|Hl]; [by left|right].
    unfold last_or. by rewrite Hl. }
  unfold parse_descriptor. rewrite Hs.
  assert (Str.truthy q = true) as Htruthy
    by (destruct Hhead as (c & Hc & _); by destruct q).
  cbv beta iota zeta. rewrite strip_id, Htruthy by done.
  cbv beta iota zeta. by rewrite Htruthy.
Qed.

(** A relative path on the second line of the descriptor. *)
Lemma resolver_first_file_path_line_witness :
  let w := demo_world
             [(lit "/work/db_connection.txt",
               File (Text (lit "# notes" ++ nl
                           ++ lit "# File path: data/x.db" ++ nl)))] in
  _resolve_db_path w = (Ok (PosixPath.abspath (cwd w) (lit "data/x.db")), w).
Proof.
  intros w.
  apply (resolver_first_file_path_line w
           (lit "# notes" ++ nl ++ lit "# File path: data/x.db" ++ nl)
           (lit "# notes" ++ nl) (lit "data/x.db") nl).
  - vm_compute. reflexivity.
  - vm_compute. reflexivity.
  - right. vm_compute. reflexivity.
  - right. reflexivity.
  - intros (a & b & H). vm_compute in H.
    repeat (destruct a as [|? a]; [discriminate|injection H as _ H]).
    by destruct a.
  - split_and!; [by_compute|by_compute| |].
    + exists 100%N. split; reflexivity.
    + exists 98%N. split; reflexivity.
Defined.

(** * More on the trigger *)

(** A statement that updates the note with id [k] and gives it an
    updated_at for which the WHEN clause does not hold: the trigger does not
    fire, and the row is as the statement leaves it. *)
Lemma update_note_unguarded now depth d t i k ti co cr up ti' co' cr' up' sets :
  find_relation d (lit "notes") = Some (OTable t) →
  notes_table_ok t →
  triggers_on d (lit "notes") = [notes_set_updated_at] →
  tbl_rows t !! i = Some [VInt k; ti; co; cr; up] →
  forallb (λ ce, bool_decide (is_Some (col_index (def_cols notes_def) ce.1))
                 && expr_ok (def_cols notes_def) None ce.2) sets = true →
  assign now (def_cols notes_def) [VInt k; ti; co; cr; up] None sets
    [VInt k; ti; co; cr; up] = Ok [VInt k; ti'; co'; cr'; up'] →
  ti' ≠ VNull → co' ≠ VNull →
  is_null up' = true ∨ is_null up = true ∨ up' ≠ up →
  exec_update (S (S depth)) false now [] None
    {| upd_table := lit "notes"; upd_set := sets;
       upd_where := CEq (ECol (lit "id")) (EConst (VInt k)) |} d
  = Ok (put_table
          (with_rows t (<[i:=[VInt k; ti'; co'; cr'; up']]> (tbl_rows t))) d,
        []).
Proof.
  intros Hf Hok Ht Hi Hsets Hassign Hti Hco Hwhen.
  pose proof Hok as (Hc & Hrows & Hnd).
  rewrite rowids_notes in Hnd by done.
  remember (S depth) as dn eqn:Hdn.
  cbn [exec_update upd_table fmap option_fmap option_map]. rewrite Hf.
  replace (update_ok d _ _) with true.
  2:{ unfold update_ok. cbn [upd_table upd_set upd_where]. rewrite Hf, Hc, Hsets.
      reflexivity. }
  cbn [negb upd_table]. rewrite Ht, Hc. cbn [forallb].
  rewrite (trigger_ok_notes _ _ Hf Hc), orb_true_r.
  cbn [negb andb upd_where].
  rewrite (matching_id now _ _ k) by (done || reflexivity).
  rewrite (id_positions_unique k _ 0 i _ Hnd Hi) by done.
  cbn [mbind result_bind foldl Nat.add].
  unfold update_row. cbn [mbind result_bind fst snd upd_table upd_set].
  rewrite Hf, Hi, Hc, Hassign. cbn [mbind result_bind].
  rewrite check_row_notes; [|done..| |].
  2:{ apply Forall_app. split; [by apply Forall_take|by apply Forall_drop]. }
  2:{ by eapply others_ids. }
  cbn [mbind result_bind]. rewrite Ht. cbn [foldl].
  unfold fire_trigger. cbn [mbind result_bind fst snd].
  replace (skipped false [] notes_set_updated_at) with false by reflexivity.
  replace (eval_cond now [] None _ (trg_when notes_set_updated_at))
    with (Ok (if is_null up' || is_null up then None
              else Some (bool_decide (up' = up))) : result (option bool))
    by reflexivity.
  cbn [mbind result_bind].
  destruct Hwhen as [-> | [-> | Hne]]; [done|by rewrite orb_true_r|].
  destruct (is_null up' || is_null up); [done|].
  by rewrite bool_decide_eq_false_2.
Qed.

(** A note whose updated_at is NULL is never refreshed: a change of its
    title succeeds, the trigger does not fire (NULL = NULL is not true), and
    updated_at stays NULL. *)
Theorem null_updated_at_is_not_refreshed
    (now : str) (d : db) (t : table) (i : nat) (k : Z)
    (ti co cr v : value) :
  find_relation d (lit "notes") = Some (OTable t) →
  notes_table_ok t →
  triggers_on d (lit "notes") = [notes_set_updated_at] →
  tbl_rows t !! i = Some [VInt k; ti; co; cr; VNull] →
  v ≠ VNull →
  let d1 := put_table
              (with_rows t (<[i:=[VInt k; v; co; cr; VNull]]> (tbl_rows t))) d in
  exec_update (S max_trigger_depth) false (VText now) [] None
    (update_note (lit "title") v k) d = Ok (d1, [])
  ∧ updated_at_of d1 k = Some VNull.
Proof.
  intros Hf Hok Ht Hi Hv d1. pose proof Hok as (Hc & Hrows & Hnd).
  assert (co ≠ VNull) as Hco.
  { apply list_elem_of_lookup_2 in Hi.
    eapply Forall_forall in Hrows; [|exact Hi].
    destruct Hrows as (? & ? & ? & ? & ? & Heq & ? & ?).
    by injection Heq as <- <- <- <- <-. }
  split.
  - change (S max_trigger_depth) with (S (S 999)).
    by apply (update_one_note (VText now) 999 d t i k ti co cr VNull v co cr).
  - by eapply updated_at_of_put.
Qed.

(** An updated_at that the caller sets to another value is kept: the
    trigger does not fire and does not put CURRENT_TIMESTAMP in its place. *)
Theorem explicit_updated_at_is_kept
    (now : str) (d : db) (t : table) (i : nat) (k : Z)
    (ti co cr up : value) (given : str) :
  find_relation d (lit "notes") = Some (OTable t) →
  notes_table_ok t →
  triggers_on d (lit "notes") = [notes_set_updated_at] →
  tbl_rows t !! i = Some [VInt k; ti; co; cr; up] →
  VText given ≠ up →
  let d1 := put_table
              (with_rows t (<[i:=[VInt k; ti; co; cr; VText given]]> (tbl_rows t)))
              d in
  exec_update (S max_trigger_depth) false (VText now) [] None
    (update_note (lit "updated_at") (VText given) k) d = Ok (d1, [])
  ∧ updated_at_of d1 k = Some (VText given).
Proof.
  intros Hf Hok Ht Hi Hne d1. pose proof Hok as (Hc & Hrows & Hnd).
  assert (ti ≠ VNull ∧ co ≠ VNull) as [Hti Hco].
  { apply list_elem_of_lookup_2 in Hi.
    eapply Forall_forall in Hrows; [|exact Hi].
    destruct Hrows as (? & ? & ? & ? & ? & Heq & ? & ?).
    by injection Heq as <- <- <- <- <-. }
  split.
  - change (S max_trigger_depth) with (S (S 999)).
    apply (update_note_unguarded (VText now) 999 d t i k ti co cr up ti co cr
             (VText given)); try done. by right; right.
  - by eapply updated_at_of_put.
Qed.

Lemma null_updated_at_is_not_refreshed_witness :
  let d1 := put_table
              (with_rows null_note_table
                 (<[0%nat:=[VInt 1; VText (lit "c"); VText (lit "x");
                            VText (lit "2024-01-01 10:00:00"); VNull]]>
                    (tbl_rows null_note_table))) null_note_db in
  exec_update (S max_trigger_depth) false (VText (lit "2024-06-01 00:00:00"))
    [] None (update_note (lit "title") (VText (lit "c")) 1) null_note_db
  = Ok (d1, [])
  ∧ updated_at_of d1 1 = Some VNull.
Proof.
  apply (null_updated_at_is_not_refreshed (lit "2024-06-01 00:00:00")
           null_note_db null_note_table 0 1 (VText (lit "a")) (VText (lit "x"))
           (VText (lit "2024-01-01 10:00:00")) (VText (lit "c"))).
  - vm_compute. reflexivity.
  - split_and!.
    + reflexivity.
    + vm_compute. repeat constructor; eexists _, _, _, _, _; split_and!;
        (reflexivity || discriminate).
    + vm_compute. repeat constructor; set_solver.
  - vm_compute. reflexivity.
  - reflexivity.
  - discriminate.
Defined.

Lemma explicit_updated_at_is_kept_witness :
  let d1 := put_table
              (with_rows two_notes_table
                 (<[0%nat:=[VInt 1; VText (lit "a"); VText (lit "x");
                            VText (lit "2024-01-01 10:00:00");
                            VText (lit "1999-01-01 00:00:00")]]>
                    two_notes_rows)) two_notes_db in
  exec_update (S max_trigger_depth) false (VText (lit "2024-06-01 00:00:00"))
    [] None
    (update_note (lit "updated_at") (VText (lit "1999-01-01 00:00:00")) 1)
    two_notes_db
  = Ok (d1, [])
  ∧ updated_at_of d1 1 = Some (VText (lit "1999-01-01 00:00:00")).
Proof.
  apply (explicit_updated_at_is_kept (lit "2024-06-01 00:00:00")
           two_notes_db two_notes_table 0 1 (VText (lit "a")) (VText (lit "x"))
           (VText (lit "2024-01-01 10:00:00")) (VText (lit "2024-01-01 10:00:00"))
           (lit "1999-01-01 00:00:00")).
  - vm_compute. reflexivity.
  - split_and!.
    + reflexivity.
    + vm_compute. repeat constructor; eexists _, _, _, _, _; split_and!;
        (reflexivity || discriminate).
    + vm_compute. repeat constructor; set_solver.
  - vm_compute. reflexivity.
  - reflexivity.
  - vm_compute. discriminate.
Defined.

(** * The helper functions on an open connection *)


(** ** _table_exists *)

Lemma select_table_exists_spec name d :
  select_table_exists name d ≠ []
  ↔ ∃ t, OTable t ∈ d ∧ tbl_name t = name.
Proof.
  unfold select_table_exists. induction d as [|o d IH].
  - split; [done|]. intros (t & Hin & _). by apply elem_of_nil in Hin.
  - cbn [omap list_omap]. destruct o as [t| | |].
    + destruct (decide (tbl_name t = name)) as [He|Hne].
      * rewrite bool_decide_eq_true_2 by done. split; [|done].
        intros _. exists t. split; [by left|done].
      * rewrite bool_decide_eq_false_2 by done. rewrite IH.
        split; intros (t' & Hin & Hn).
        -- exists t'. split; [by right|done].
        -- exists t'. split; [|done].
           apply elem_of_cons in Hin as [[= ->]|]; done.
    + rewrite IH. split; intros (t' & Hin & Hn); exists t'; (split; [|done]);
        [by right|by apply elem_of_cons in Hin as [|]].
    + rewrite IH. split; intros (t' & Hin & Hn); exists t'; (split; [|done]);
        [by right|by apply elem_of_cons in Hin as [|]].
    + rewrite IH. split; intros (t' & Hin & Hn); exists t'; (split; [|done]);
        [by right|by apply elem_of_cons in Hin as [|]].
Qed.

(** _table_exists answers for tables only, and compares the name exactly:
    it returns True when the database holds a table whose name is
    [table_name] letter for letter, and False otherwise, also when a view
    has that name or a table has it in another case.  It changes neither
    the database nor the files. *)
Theorem table_exists_compares_exactly
    (p : str) (d : db) (txn : bool) (w : world) (table_name : str) :
  session p d txn w →
  like_sqlite_ table_name = false →
  ∃ b w', _table_exists table_name w = (Ok b, w')
    ∧ (b = true ↔ ∃ t, OTable t ∈ d ∧ tbl_name t = table_name)
    ∧ same_files w w' ∧ session p d txn w'.
Proof.
  intros Hs _. unfold _table_exists.
  destruct (cursor_execute_unchanged (SelectTableExists table_name)
              (select_table_exists table_name d) p d txn w)
    as (w1 & R1 & F1 & S1); [done|done|done|done|].
  rewrite (bind_run _ _ _ _ _ R1). unfold ret.
  eexists _, w1. split; [reflexivity|]. split; [|done].
  rewrite <- select_table_exists_spec.
  by destruct (select_table_exists table_name d).
Qed.

Lemma table_exists_compares_exactly_witness :
  let w := schema_ready_world in
  ∃ b w', _table_exists (lit "notes") w = (Ok b, w')
    ∧ (b = true ↔ ∃ t, OTable t ∈ view w ∧ tbl_name t = lit "notes")
    ∧ same_files w w' ∧ session (lit "/work/myapp.db") (view w) false w'.
Proof.
  intros w.
  apply (table_exists_compares_exactly (lit "/work/myapp.db") (view w) false w
           (lit "notes")).
  - split; [intros n; vm_compute; reflexivity|].
    eexists. split_and!; vm_compute; reflexivity.
  - vm_compute. reflexivity.
Defined.

(** ** _get_table_columns *)

Section table_columns.


End table_columns.



(** * The schema helpers on an open connection *)

(** A schema statement outside a transaction is written to the file. *)
Lemma cursor_execute_ddl s rows p d d' w :
  session p d false w →
  (∀ rt now, exec rt true now s d = Ok (d', rows)) →
  is_ddl s = true →
  ∃ w', cursor_execute s w = (Ok rows, w')
      ∧ session p d' false w'
      ∧ cwd w' = cwd w ∧ fault w' = fault w
      ∧ fs w' = <[p := File (Database d')]> (fs w).
Proof.
  intros (Hfault & c & Hc & Hp & Hd & Htxn & Hwr & Hdb & Hopen) Hexec Hddl.
  unfold cursor_execute. cbv zeta. cbn [tick conn fault clock].
  rewrite Hc, Hopen, Hfault, Hdb, Hwr, Hd, Htxn, Hp.
  destruct s; try discriminate Hddl.
  all: rewrite Hexec; cbn [is_dml is_ddl orb andb negb].
  all: eexists; split; [reflexivity|]; split_and!; try done.
  all: split; [done|]; eexists; cbn [conn set_conn set_fs]; by split_and!.
Qed.

(** A statement that SQLite refuses. *)
Lemma cursor_execute_raises s e p d txn w :
  session p d txn w →
  (∀ rt now, exec rt true now s d = Raise e) →
  ∃ w', cursor_execute s w = (Raise e, w')
      ∧ session p d txn w' ∧ same_files w w'.
Proof.
  intros (Hfault & c & Hc & Hp & Hd & Htxn & Hwr & Hdb & Hopen) Hexec.
  unfold cursor_execute. cbv zeta. cbn [tick conn fault clock].
  rewrite Hc, Hopen, Hfault, Hdb, Hwr, Hd.
  destruct s.
  1:{ specialize (Hexec false VNull). discriminate Hexec. }
  all: rewrite Hexec; eexists; split; [reflexivity|]; split; [|by split_and!].
  all: split; [done|]; exists c; cbn [conn tick]; by split_and!.
Qed.


(** ** A table that is missing is created *)



(** ** Columns that are missing are added *)





(** ** A populated table cannot gain a timestamp column *)




(** ** Installing the trigger *)

(** On a database with a notes table, _ensure_notes_updated_at_trigger
    returns; it adds the trigger after the objects that exist unless a
    trigger of that name exists already, in which case the database is as
    it was; and a second call changes nothing more. *)
Theorem trigger_install_is_idempotent
    (p : str) (d : db) (w : world) (t : table) :
  session p d false w →
  find_relation d (lit "notes") = Some (OTable t) →
  let d' := if existsb (is_trigger (lit "notes_set_updated_at")) d then d
            else d ++ [OTrigger notes_set_updated_at] in
  ∃ w1 w2, _ensure_notes_updated_at_trigger w = (Ok (), w1)
    ∧ session p d' false w1
    ∧ fs w1 = <[p := File (Database d')]> (fs w)
    ∧ _ensure_notes_updated_at_trigger w1 = (Ok (), w2)
    ∧ session p d' false w2
    ∧ same_files w1 w2.
Proof.
  intros Hs Ht d'. unfold _ensure_notes_updated_at_trigger.
  destruct (cursor_execute_ddl (CreateTriggerIfNotExists notes_set_updated_at)
              [] p d d' w) as (w1 & R1 & S1 & C1 & U1 & F1); [done| |done|].
  { intros rt now. cbn [exec]. unfold create_trigger_if_not_exists.
    change (trg_table notes_set_updated_at) with (lit "notes").
    change (trg_name notes_set_updated_at) with (lit "notes_set_updated_at").
    rewrite Ht. unfold d'.
    by destruct (existsb (is_trigger (lit "notes_set_updated_at")) d). }
  assert (existsb (is_trigger (lit "notes_set_updated_at")) d' = true) as Htrg.
  { unfold d'.
    destruct (existsb (is_trigger (lit "notes_set_updated_at")) d) eqn:E;
      [done|].
    rewrite existsb_app, E. reflexivity. }
  assert (is_Some (find_relation d' (lit "notes"))) as [o Ho].
  { unfold d'.
    destruct (existsb (is_trigger (lit "notes_set_updated_at")) d);
      [by eexists|].
    unfold find_relation in *. clear -Ht.
    induction d as [|o d IH]; cbn [app find_object] in *; [done|].
    destruct (is_relation (lit "notes") o); [by eexists|by apply IH]. }
  destruct (cursor_execute_unchanged
              (CreateTriggerIfNotExists notes_set_updated_at) [] p d' false w1)
    as (w2 & R2 & F2 & S2); [done| |done| |].
  { intros rt now. cbn [exec]. unfold create_trigger_if_not_exists.
    change (trg_table notes_set_updated_at) with (lit "notes").
    change (trg_name notes_set_updated_at) with (lit "notes_set_updated_at").
    by rewrite Ho, Htrg. }
  { intros _ _. by rewrite F1, lookup_insert_eq. }
  exists w1, w2. rewrite (bind_run _ _ _ _ _ R1), (bind_run _ _ _ _ _ R2).
  by split_and!.
Qed.

Lemma trigger_install_is_idempotent_witness :
  let w := old_notes_world [] in
  let d' := old_notes_db [] ++ [OTrigger notes_set_updated_at] in
  ∃ w1 w2, _ensure_notes_updated_at_trigger w = (Ok (), w1)
    ∧ session (lit "/work/myapp.db") d' false w1
    ∧ fs w1 = <[lit "/work/myapp.db" := File (Database d')]> (fs w)
    ∧ _ensure_notes_updated_at_trigger w1 = (Ok (), w2)
    ∧ session (lit "/work/myapp.db") d' false w2
    ∧ same_files w1 w2.
Proof.
  intros w.
  apply (trigger_install_is_idempotent (lit "/work/myapp.db") (old_notes_db [])
           w {| tbl_name := lit "notes"; tbl_cols := [id_column];
                tbl_rows := []; tbl_seq := None |}).
  - split; [intros n; vm_compute; reflexivity|].
    eexists. split_and!; vm_compute; reflexivity.
  - vm_compute. reflexivity.
Defined.

(** Without a notes table (or view) the trigger cannot be installed:
    _ensure_notes_updated_at_trigger raises SQLite's "no such table", and
    the database and the files are as they were. *)
Theorem trigger_install_needs_notes (p : str) (d : db) (txn : bool) (w : world) :
  session p d txn w →
  find_relation d (lit "notes") = None →
  ∃ w', _ensure_notes_updated_at_trigger w
        = (Raise (Exn OperationalError (lit "no such table: main.notes")), w')
      ∧ session p d txn w' ∧ same_files w w'.
Proof.
  intros Hs Hnone. unfold _ensure_notes_updated_at_trigger.
  destruct (cursor_execute_raises
              (CreateTriggerIfNotExists notes_set_updated_at)
              (Exn OperationalError (lit "no such table: main.notes"))
              p d txn w) as (w1 & R1 & S1 & F1); [done| |].
  { intros rt now. cbn [exec]. unfold create_trigger_if_not_exists.
    change (trg_table notes_set_updated_at) with (lit "notes").
    rewrite Hnone. reflexivity. }
  exists w1. by rewrite (bind_run_raise _ _ _ _ _ R1).
Qed.

(** A database that was just created. *)
Lemma trigger_install_needs_notes_witness :
  let w := ((sqlite3_connect (lit "/work/myapp.db") ;;
             cursor_execute (PragmaForeignKeys true)) (demo_world [])).2 in
  ∃ w', _ensure_notes_updated_at_trigger w
        = (Raise (Exn OperationalError (lit "no such table: main.notes")), w')
      ∧ session (lit "/work/myapp.db") [] false w' ∧ same_files w w'.
Proof.
  intros w.
  apply (trigger_install_needs_notes (lit "/work/myapp.db") [] false w).
  - split; [intros n; vm_compute; reflexivity|].
    eexists. split_and!; vm_compute; reflexivity.
  - reflexivity.
Defined.

(** * What main never does *)

Lemma nothing_removed_refl w : nothing_removed w w.
Proof. split; [done|]. by intros k. Qed.

Lemma nothing_removed_trans w1 w2 w3 :
  nothing_removed w1 w2 → nothing_removed w2 w3 → nothing_removed w1 w3.
Proof.
  intros [C1 H1] [C2 H2]. split; [congruence|]. intros k.
  destruct (H1 k) as [A1 B1]. destruct (H2 k) as [A2 B2]. split; [tauto|].
  intros b Hb. by apply B2, B1.
Qed.

Lemma nothing_removed_same_fs w w' :
  cwd w' = cwd w → fs w' = fs w → nothing_removed w w'.
Proof. intros Hc Hf. split; [done|]. intros k. by rewrite Hf. Qed.

Lemma nothing_removed_insert w w' k x :
  cwd w' = cwd w → fs w' = <[k := x]> (fs w) →
  (∀ b, fs w !! k ≠ Some (Dir b)) →
  nothing_removed w w'.
Proof.
  intros Hc Hf Hk. split; [done|]. intros k'. rewrite Hf.
  destruct (decide (k' = k)) as [->|Hne].
  - rewrite lookup_insert_eq. split; [by eexists|]. intros b Hb. by destruct (Hk b).
  - by rewrite lookup_insert_ne.
Qed.

Ltac keeps :=
  repeat first
    [ apply (preserves_bind _ nothing_removed_refl nothing_removed_trans);
      [|intros ?]
    | apply (preserves_try_except _ nothing_removed_refl nothing_removed_trans);
      [|intros ?]
    | apply (preserves_if _ nothing_removed_refl nothing_removed_trans)
    | apply (preserves_ret _ nothing_removed_refl nothing_removed_trans)
    | apply (preserves_raise _ nothing_removed_refl nothing_removed_trans) ].

Lemma print_removes_nothing l : preserves nothing_removed (print l).
Proof. intros w. by apply nothing_removed_same_fs. Qed.

Lemma os_path_exists_removes_nothing q :
  preserves nothing_removed (os_path_exists q).
Proof. intros w. apply nothing_removed_refl. Qed.

Lemma os_path_isdir_removes_nothing q :
  preserves nothing_removed (os_path_isdir q).
Proof. intros w. apply nothing_removed_refl. Qed.

Lemma os_mkdir_removes_nothing q : preserves nothing_removed (os_mkdir q).
Proof.
  intros w. unfold os_mkdir. cbv zeta.
  destruct (fs w !! key w q) eqn:E; [apply nothing_removed_refl|].
  destruct (creatable w (key w q)); [apply nothing_removed_refl|].
  eapply nothing_removed_insert; [done|done|]. intros b. by rewrite E.
Qed.

Lemma os_makedirs_rec_removes_nothing fuel : ∀ name exist_ok,
  preserves nothing_removed (os_makedirs_rec fuel name exist_ok).
Proof.
  induction fuel as [|fuel IH]; intros name exist_ok; cbn [os_makedirs_rec].
  - keeps.
  - destruct (PosixPath.split name) as [head tail].
    destruct (if negb (Str.truthy tail) then PosixPath.split head
              else (head, tail)) as [head' tail'].
    keeps; try apply os_path_exists_removes_nothing;
      try apply os_mkdir_removes_nothing;
      try apply os_path_isdir_removes_nothing; try apply IH.
    all: destruct (is_OSError _); keeps; try apply os_path_isdir_removes_nothing.
Qed.

Lemma os_makedirs_removes_nothing name exist_ok :
  preserves nothing_removed (os_makedirs name exist_ok).
Proof. apply os_makedirs_rec_removes_nothing. Qed.

Lemma read_text_removes_nothing q : preserves nothing_removed (read_text q).
Proof.
  intros w. unfold read_text.
  destruct (fs w !! key w q) as [[|[|[|]]]|]; apply nothing_removed_refl.
Qed.

Ltac keeps_cases :=
  repeat first
    [ apply (preserves_bind _ nothing_removed_refl nothing_removed_trans);
      [|intros ?]
    | apply (preserves_try_except _ nothing_removed_refl nothing_removed_trans);
      [|intros ?]
    | apply (preserves_ret _ nothing_removed_refl nothing_removed_trans)
    | apply (preserves_raise _ nothing_removed_refl nothing_removed_trans)
    | apply os_path_exists_removes_nothing
    | apply read_text_removes_nothing
    | match goal with
      | |- preserves _ (if ?x then _ else _) => destruct x
      | |- preserves _ (match ?x with _ => _ end) => destruct x
      end ].

Lemma resolve_removes_nothing : preserves nothing_removed _resolve_db_path.
Proof.
  unfold _resolve_db_path, _parse_db_path_from_connection_file.
  keeps_cases.
  all: intros w; apply nothing_removed_refl.
Qed.

Lemma open_w_removes_nothing q : preserves nothing_removed (open_w q).
Proof.
  intros w. unfold open_w. cbv zeta.
  destruct (fs w !! key w q) as [[|]|] eqn:E.
  - apply nothing_removed_refl.
  - eapply nothing_removed_insert; [done|done|]. intros b. by rewrite E.
  - destruct (creatable w (key w q)); [apply nothing_removed_refl|].
    eapply nothing_removed_insert; [done|done|]. intros b. by rewrite E.
Qed.

Lemma f_write_removes_nothing q s : preserves nothing_removed (f_write q s).
Proof.
  intros w. unfold f_write. cbv zeta.
  destruct (fs w !! key w q) as [[|[old|]]|] eqn:E;
    try apply nothing_removed_refl.
  eapply nothing_removed_insert; [done|done|]. intros b. by rewrite E.
Qed.

Lemma sqlite3_connect_removes_nothing q w :
  nothing_removed w (sqlite3_connect q w).2
  ∧ ((sqlite3_connect q w).1 = Ok () → conn_on_file (sqlite3_connect q w).2).
Proof.
  unfold sqlite3_connect. cbv zeta.
  change (key (tick w) q) with (key w q). cbn [tick fault fs].
  destruct (fault w (sql_calls w)).
  { split; [by apply nothing_removed_same_fs|done]. }
  destruct (fs w !! key w q) as [[|[[|]|]]|] eqn:E.
  - split; [by apply nothing_removed_same_fs|done].
  - split; [by apply nothing_removed_same_fs|].
    intros _ c Hc b. cbn [snd conn emit set_conn] in Hc.
    assert (conn_path c = key w q) as -> by (by injection Hc as <-).
    cbn [snd fs emit set_conn tick]. by rewrite E.
  - split; [by apply nothing_removed_same_fs|].
    intros _ c Hc b. cbn [snd conn emit set_conn] in Hc.
    assert (conn_path c = key w q) as -> by (by injection Hc as <-).
    cbn [snd fs emit set_conn tick]. by rewrite E.
  - split; [by apply nothing_removed_same_fs|].
    intros _ c Hc b. cbn [snd conn emit set_conn] in Hc.
    assert (conn_path c = key w q) as -> by (by injection Hc as <-).
    cbn [snd fs emit set_conn tick]. by rewrite E.
  - destruct (match fs w !! PosixPath.dirname (key w q) with
              | Some (Dir true) => true | _ => false end).
    + split.
      * eapply nothing_removed_insert; [done|done|]. intros b. by rewrite E.
      * intros _ c Hc b. cbn [snd conn emit set_conn] in Hc.
        assert (conn_path c = key w q) as -> by (by injection Hc as <-).
        cbn [snd fs emit set_conn set_fs tick]. by rewrite lookup_insert_eq.
    + split; [by apply nothing_removed_same_fs|done].
Qed.

Lemma by_sql_refl w : nothing_removed_by_sql w w.
Proof. intros H. split; [apply nothing_removed_refl|done]. Qed.

Lemma by_sql_trans w1 w2 w3 :
  nothing_removed_by_sql w1 w2 → nothing_removed_by_sql w2 w3 →
  nothing_removed_by_sql w1 w3.
Proof.
  intros H1 H2 Hc. destruct (H1 Hc) as [N1 C1]. destruct (H2 C1) as [N2 C2].
  split; [by eapply nothing_removed_trans|done].
Qed.

Lemma by_sql_same w w' :
  cwd w' = cwd w → fs w' = fs w →
  conn_path <$> conn w' = conn_path <$> conn w →
  nothing_removed_by_sql w w'.
Proof.
  intros Hc Hf Hp Hon. split; [by apply nothing_removed_same_fs|].
  intros c' Hc' b. rewrite Hf. rewrite Hc' in Hp.
  destruct (conn w) as [c|] eqn:E; [|done].
  injection Hp as ->. by apply Hon.
Qed.

Lemma by_sql_write w w' c d :
  conn w = Some c →
  cwd w' = cwd w → fs w' = <[conn_path c := File (Database d)]> (fs w) →
  conn_path <$> conn w' = Some (conn_path c) →
  nothing_removed_by_sql w w'.
Proof.
  intros E Hc Hf Hp Hon. split.
  - eapply nothing_removed_insert; [done|done|]. by apply Hon.
  - intros c' Hc' b. rewrite Hf. rewrite Hc' in Hp. injection Hp as ->.
    by rewrite lookup_insert_eq.
Qed.

Lemma cursor_execute_by_sql s : preserves nothing_removed_by_sql (cursor_execute s).
Proof.
  intros w. unfold cursor_execute. cbv zeta. cbn [tick conn fault clock].
  destruct (conn w) as [c|] eqn:Hc; [|by apply by_sql_same; cbn; rewrite ?Hc].
  destruct (conn_closed c); [by apply by_sql_same; cbn; rewrite ?Hc|].
  destruct (fault w (sql_calls w)); [by apply by_sql_same; cbn; rewrite ?Hc|].
  destruct s.
  1:{ apply by_sql_same; cbn [snd cwd fs conn set_conn tick]; [done|done|].
      by rewrite Hc. }
  all: destruct (conn_notadb c); [by apply by_sql_same; cbn; rewrite ?Hc|].
  all: destruct (exec _ _ _ _ (conn_db c)) as [[d' rows]|e];
    [|by apply by_sql_same; cbn; rewrite ?Hc].
  all: cbn [snd is_ddl is_dml andb orb negb].
  all: repeat match goal with
         | |- context [if ?b then _ else _] => destruct b
         end.
  all: first [ by eapply (by_sql_write _ _ c d')
             | apply by_sql_same; cbn [cwd fs conn set_conn tick fmap option_fmap
                                        option_map conn_path];
               [done|done|by rewrite Hc] ].
Qed.

Lemma conn_commit_by_sql : preserves nothing_removed_by_sql conn_commit.
Proof.
  intros w. unfold conn_commit. cbv zeta. cbn [tick conn fault].
  destruct (conn w) as [c|] eqn:Hc; [|by apply by_sql_same; cbn; rewrite ?Hc].
  destruct (conn_closed c); [by apply by_sql_same; cbn; rewrite ?Hc|].
  destruct (fault w (sql_calls w)); [by apply by_sql_same; cbn; rewrite ?Hc|].
  destruct (conn_in_txn c); [|by apply by_sql_same; cbn; rewrite ?Hc].
  by eapply (by_sql_write _ _ c (conn_db c)).
Qed.

Lemma fetchone_0_by_sql rows : preserves nothing_removed_by_sql (fetchone_0 rows).
Proof.
  intros w. unfold fetchone_0.
  destruct rows as [|[|v r] rows]; apply by_sql_refl.
Qed.

Ltac by_sql_steps :=
  repeat first
    [ apply (preserves_bind _ by_sql_refl by_sql_trans); [|intros ?]
    | apply (preserves_for_each _ by_sql_refl by_sql_trans); intros ?
    | apply (preserves_ret _ by_sql_refl by_sql_trans)
    | apply cursor_execute_by_sql
    | apply conn_commit_by_sql
    | apply fetchone_0_by_sql
    | match goal with
      | |- preserves _ (if ?x then _ else _) => destruct x
      | |- preserves _ (let '(_, _) := ?x in _) => destruct x
      end ].

Lemma after_connect_by_sql :
  preserves nothing_removed_by_sql
    (cursor_execute (PragmaForeignKeys true) ;;
     ensure_schema ;;
     seed_app_info [] ;;
     conn_commit ;;
     rows <- cursor_execute SelectCountUserTables ;;
     table_count <- fetchone_0 rows ;;
     rows <- cursor_execute (SelectCount (lit "app_info")) ;;
     record_count <- fetchone_0 rows ;;
     ret (table_count, record_count)).
Proof.
  unfold ensure_schema, _ensure_table_with_required_columns,
    _get_table_columns, _ensure_notes_updated_at_trigger, seed_app_info.
  by_sql_steps.
Qed.

(** The body of the try statement removes nothing. *)
Lemma database_phase_removes_nothing p :
  preserves nothing_removed (database_phase p).
Proof.
  intros w. unfold database_phase, bind at 1.
  destruct (sqlite3_connect_removes_nothing p w) as [Hn Hon].
  destruct (sqlite3_connect p w) as [[[]|e] w1]; cbn [fst snd] in *; [|done].
  pose proof (after_connect_by_sql w1 (Hon eq_refl)) as [Hn' _].
  by eapply nothing_removed_trans.
Qed.

Lemma close_removes_nothing : preserves nothing_removed close_conn_if_bound.
Proof.
  intros w. unfold close_conn_if_bound.
  destruct (conn w); by apply nothing_removed_same_fs.
Qed.

Lemma subprocess_removes_nothing :
  preserves nothing_removed subprocess_run_which_sqlite3.
Proof.
  intros w. unfold subprocess_run_which_sqlite3.
  destruct (which_sqlite3 w); apply nothing_removed_refl.
Qed.

Ltac main_steps :=
  repeat first
    [ apply print_removes_nothing
    | apply resolve_removes_nothing
    | apply os_makedirs_removes_nothing
    | apply os_path_exists_removes_nothing
    | apply database_phase_removes_nothing
    | apply close_removes_nothing
    | apply open_w_removes_nothing
    | apply f_write_removes_nothing
    | apply subprocess_removes_nothing
    | apply (preserves_ret _ nothing_removed_refl nothing_removed_trans)
    | apply (preserves_raise _ nothing_removed_refl nothing_removed_trans)
    | apply (preserves_try_finally _ nothing_removed_refl nothing_removed_trans)
    | apply (preserves_try_except _ nothing_removed_refl nothing_removed_trans);
      [|intros ?]
    | apply (preserves_bind _ nothing_removed_refl nothing_removed_trans);
      [|intros ?]
    | match goal with
      | |- preserves _ (if ?x then _ else _) => destruct x
      | |- preserves _ (let '(_, _) := ?x in _) => destruct x
      end ].


(** * The helper files *)

Lemma before_database_phase_removes_nothing :
  preserves nothing_removed before_database_phase.
Proof. unfold before_database_phase. main_steps. Qed.

(** Failures of writing the helper files do not abort the run when
    db_visualizer exists: once the steps before the try statement and the
    body of the try statement have returned, main returns, whatever
    happens to the two writes; and apart from the two helper files the
    file system is as the database phase left it. *)
Theorem helper_file_failures_are_warnings
    (w w0 w1 : world) (p : str) (stats : value * value) :
  before_database_phase w = (Ok p, w0) →
  database_phase p w0 = (Ok stats, w1) →
  is_Some (fs w !! key w (lit "db_visualizer")) →
  ∃ w', main w = (Ok (), w')
    ∧ ∀ k, k ≠ key w (lit "db_connection.txt") →
           k ≠ key w (lit "db_visualizer/sqlite.env") →
           fs w' !! k = fs w1 !! k.
Proof.
  intros Hbefore Hdb Hdv.
  pose proof (preserves_run _ _ _ _ _ before_database_phase_removes_nothing
                Hbefore) as N0.
  pose proof (preserves_run _ _ _ _ _ (database_phase_removes_nothing p) Hdb)
    as N1.
  destruct (nothing_removed_trans _ _ _ N0 N1) as [C1 Hkeep].
  destruct (after_cleanup_same_files w1) as (C2 & _ & F2).
  assert (∀ q, key (after_cleanup w1) q = key w q) as Hkey
    by (intros q; unfold key; by rewrite C2, C1).
  destruct (after_database_phase_returns p stats (after_cleanup w1))
    as (w3 & R3 & _ & _ & Hother & _).
  { rewrite Hkey, F2. by apply Hkeep. }
  exists w3. split.
  - rewrite main_stages, (bind_run _ _ _ _ _ Hbefore).
    by rewrite (bind_run _ _ _ _ _ (guarded_database_phase_run _ _ _ _ Hdb)).
  - intros k Hk Hk'. rewrite Hother by (by rewrite Hkey). by rewrite F2.
Qed.

(** Neither helper file can be written, and main returns. *)
Lemma helper_file_failures_are_warnings_witness :
  let w := unwritable_helpers_world in
  let w0 := (before_database_phase w).2 in
  let w1 := (database_phase (lit "/work/myapp.db") w0).2 in
  ∃ w', main w = (Ok (), w')
    ∧ ∀ k, k ≠ key w (lit "db_connection.txt") →
           k ≠ key w (lit "db_visualizer/sqlite.env") →
           fs w' !! k = fs w1 !! k.
Proof.
  intros w w0 w1.
  apply (helper_file_failures_are_warnings w w0 w1 (lit "/work/myapp.db")
           (VInt 3, VInt 4)).
  - vm_compute. reflexivity.
  - vm_compute. reflexivity.
  - vm_compute. by eexists.
Defined.

(** * What the seed statement does to the rows *)


